(** * The yarpc tracing interceptor: span lifecycle and error taxonomy

    A shallow embedding of package [tracinginterceptor]: the six entry
    points of [internal/tracinginterceptor/interceptor.go], the later
    revision of the package that wraps the response writer in a pooled
    [writer] (four of whose entry points are still [panic("implement me")]),
    and the two classifiers [updateSpanWithError] and
    [updateSpanWithOutboundError] that both revisions share verbatim.

    Go code is embedded in a state-and-panic monad over a [World] that holds
    what the calls mutate: the spans the tracer has started, the response
    writers, the heap of pooled [writer] objects and the pool itself. *)

From Stdlib Require Import ZArith.
From stdpp Require Import base strings list gmap.

Open Scope Z_scope.
Open Scope string_scope.
Open Scope list_scope.

(** ** Go values the package receives from its collaborators *)

(** [yarpcerrors] and the [error] interface.  A Go [error] is an
    [option error]: [None] is the nil interface.  The package
    [go.uber.org/yarpc/yarpcerrors] is not part of the sources; its
    functions on non-nil errors are fields of this class. *)
Class YarpcErrors := {
  error : Type;
  Status : Type;
  Code : Type;
  (** [yarpcerrors.IsStatus] on a non-nil error *)
  isStatus : error -> bool;
  (** [yarpcerrors.FromError]; [Status] stands for the pointer it returns *)
  FromError : option error -> Status;
  (** the [Code] method of a status *)
  Status_Code : Status -> Code;
  (** [Code.String] *)
  Code_String : Code -> string;
  (** [error.Error] *)
  Error : error -> string;
}.

(** [opentracing.BuiltinFormat] and its three constants. *)
Inductive BuiltinFormat := Binary | TextMap | HTTPHeaders.

(** A span context is an opaque identifier chosen by the tracer. *)
Definition SpanContext := nat.

(** The [interface{}] values the package passes to [Span.SetTag]. *)
Inductive TagValue :=
| VBool (b : bool)
| VString (s : string).

(** [log.Field] as built by [log.String]. *)
Definition Field := (string * string)%type.
Definition log_String (k v : string) : Field := (k, v).

(** An [opentracing.Span] is an interface; what the package does to a span
    is a sequence of [SetTag], [LogFields] and [Finish] calls.  The span is
    modelled as the record of those calls, the way opentracing's
    [mocktracer.MockSpan] keeps them: the tag map (last write wins), the
    log records in order and the number of times [Finish] was called. *)
Record Span := mkSpan {
  sp_context : SpanContext;
  sp_operation : string;
  sp_parent : option SpanContext;
  sp_start : Z;
  sp_tags : gmap string TagValue;
  sp_logs : list (list Field);
  sp_finished : nat;
}.

Definition SpanRef := nat.

(** [transport.ApplicationErrorMeta]; [Code] is a [*yarpcerrors.Code]. *)
Record ApplicationErrorMeta `{YarpcErrors} := {
  Details : string;
  Name : string;
  Meta_Code : option Code;
}.

(** What [go.uber.org/yarpc/api/transport] (and, for the pooled revision,
    [transport/tchannel] and the package variable [CommonTracingTags])
    contribute.  None of it is part of the sources, so it is kept abstract. *)
Class TransportAPI := {
  (** [transport.Headers] with its [With] and [Items] methods *)
  transport_Headers : Type;
  Headers_With : transport_Headers -> string -> string -> transport_Headers;
  Headers_Items : transport_Headers -> gmap string string;
  (** the carrier handed to the tracer *)
  Carrier : Type;
  transport_GetPropagationFormat : string -> BuiltinFormat;
  transport_GetPropagationCarrier : gmap string string -> string -> Carrier;
  tchannel_GetPropagationCarrier : gmap string string -> string -> Carrier;
  (** [transport.Ack] and [transport.ClientStream] are opaque here *)
  Ack : Type;
  ClientStream : Type;
  (** [CommonTracingTags], declared in another file of the package *)
  CommonTracingTags : gmap string TagValue;
}.

(** A Go function returns or panics; this is a panic value. *)
Inductive PanicValue :=
| NilDereference
| PanicString (s : string).

Inductive Result (A : Type) :=
| Ok (a : A)
| Panic (v : PanicValue).
Arguments Ok {A} a.
Arguments Panic {A} v.

#[global] Instance Result_fmap : FMap Result := fun A B f r =>
  match r with
  | Ok a => Ok (f a)
  | Panic v => Panic v
  end.

Section Embedding.
Context `{YarpcErrors} `{TransportAPI}.

(** [transport.Request] *)
Record Request := {
  Caller : string;
  Service : string;
  Transport : string;
  Encoding : string;
  Procedure : string;
  Headers : transport_Headers;
  Body : list Byte.byte;
}.

(** [transport.RequestMeta]: a request without its body. *)
Record RequestMeta := {
  Meta_Caller : string;
  Meta_Service : string;
  Meta_Transport : string;
  Meta_Encoding : string;
  Meta_Procedure : string;
  Meta_Headers : transport_Headers;
}.

(** The [ToRequest] method of a request meta copies the fields into a request without a body. *)
Definition ToRequest (r : RequestMeta) : Request :=
  {| Caller := Meta_Caller r; Service := Meta_Service r;
     Transport := Meta_Transport r; Encoding := Meta_Encoding r;
     Procedure := Meta_Procedure r; Headers := Meta_Headers r; Body := [] |}.

(** [transport.StreamRequest] *)
Record StreamRequest := { Meta : RequestMeta }.

(** [transport.Response] *)
Record Response := {
  Response_Headers : transport_Headers;
  Response_Body : list Byte.byte;
  ApplicationError : bool;
}.

(** [context.Context], as far as tracing sees it: the active span. *)
Record Context := { ctx_span : option SpanRef }.

(** [transport.ServerStream] with its [Context] and [Request] methods. *)
Record ServerStream := {
  Stream_Context : Context;
  Stream_Request : StreamRequest;
}.

(** [opentracing.Tracer].  [Tracer_Inject] returns what the tracer wrote
    into the map behind the carrier together with its error;
    [Tracer_newContext] is the context the tracer gives the span it starts. *)
Record Tracer := {
  Tracer_newContext : string -> option SpanContext -> SpanContext;
  Tracer_Inject : SpanContext -> BuiltinFormat -> Carrier -> gmap string string * option error;
  Tracer_Extract : BuiltinFormat -> Carrier -> option SpanContext * option error;
}.

(** ** Response writers *)

(** The calls a [transport.ResponseWriter] receives. *)
Inductive WriterCall :=
| CallAddHeaders (h : transport_Headers)
| CallWrite (p : list Byte.byte)
| CallSetApplicationError
| CallSetApplicationErrorMeta (meta : option ApplicationErrorMeta).

(** The transport's own response writer is an interface value; it is
    modelled by the calls it has received, whether its dynamic type also
    implements [transport.ApplicationErrorMetaSetter], and the error its
    [Write] answers with (nil for a writer that accepts every write). *)
Record TransportWriter := {
  tw_calls : list WriterCall;
  tw_isMetaSetter : bool;
  tw_writeErr : option error;
}.

(** A [transport.ResponseWriter] value: nil or a reference to a transport writer. *)
Definition ResponseWriterRef := option nat.

(** [writer]: the pooled wrapper of the later revision. *)
Record writer := {
  ResponseWriter : ResponseWriterRef;
  isApplicationError : bool;
  applicationErrorMeta : option ApplicationErrorMeta;
  responseSize : Z;
}.

(** A [*writer]. *)
Definition Loc := nat.

(** ** The world *)

(** What one downstream invocation did: the calls it made on the response
    writer it was given (unary handlers only) and what it answered. *)
Record Outcome := {
  outcome_calls : list WriterCall;
  outcome_response : option Response;
  outcome_err : option error;
}.

Record World := mkWorld {
  (** the spans started so far, in order; a [SpanRef] indexes this list *)
  spans : list Span;
  (** history of the downstream handlers and outbounds that were invoked *)
  downstream : list (Result Outcome);
  (** the transports' response writers *)
  writers : list TransportWriter;
  (** the [writer] objects allocated so far; a [Loc] indexes this list *)
  heap : list writer;
  (** [_writerPool]: the objects put back and not yet taken *)
  pool : list Loc;
  (** which pooled object each coming [Get] selects; [sync.Pool] promises no
      order, and an index outside the pool makes [Get] call [New] *)
  poolChoices : list nat;
  (** [time.Now] *)
  clock : Z;
  (** the tracer registered with [opentracing.SetGlobalTracer] *)
  globalTracer : Tracer;
}.

Definition set_spans (f : list Span -> list Span) (w : World) : World :=
  mkWorld (f (spans w)) (downstream w) (writers w) (heap w) (pool w) (poolChoices w) (clock w) (globalTracer w).
Definition set_downstream (f : list (Result Outcome) -> list (Result Outcome)) (w : World) : World :=
  mkWorld (spans w) (f (downstream w)) (writers w) (heap w) (pool w) (poolChoices w) (clock w) (globalTracer w).
Definition set_writers (f : list TransportWriter -> list TransportWriter) (w : World) : World :=
  mkWorld (spans w) (downstream w) (f (writers w)) (heap w) (pool w) (poolChoices w) (clock w) (globalTracer w).
Definition set_heap (f : list writer -> list writer) (w : World) : World :=
  mkWorld (spans w) (downstream w) (writers w) (f (heap w)) (pool w) (poolChoices w) (clock w) (globalTracer w).
Definition set_pool (f : list Loc -> list Loc) (w : World) : World :=
  mkWorld (spans w) (downstream w) (writers w) (heap w) (f (pool w)) (poolChoices w) (clock w) (globalTracer w).
Definition set_poolChoices (f : list nat -> list nat) (w : World) : World :=
  mkWorld (spans w) (downstream w) (writers w) (heap w) (pool w) (f (poolChoices w)) (clock w) (globalTracer w).
Definition set_globalTracer (t : Tracer) (w : World) : World :=
  mkWorld (spans w) (downstream w) (writers w) (heap w) (pool w) (poolChoices w) (clock w) t.

(** ** The monad of Go functions: state and panics *)

Definition M (A : Type) : Type := World -> Result A * World.

#[global] Instance M_ret : MRet M := fun A a w => (Ok a, w).
#[global] Instance M_bind : MBind M := fun A B f m w =>
  match m w with
  | (Ok a, w') => f a w'
  | (Panic v, w') => (Panic v, w')
  end.

Definition panic {A} (v : PanicValue) : M A := fun w => (Panic v, w).

(** [defer d] around the rest of a function body: [d] runs when the body
    returns and when it panics; a panic of [d] itself replaces the result. *)
Definition defer {A} (d : M ()) (body : M A) : M A := fun w =>
  let '(r, w1) := body w in
  match d w1 with
  | (Ok _, w2) => (r, w2)
  | (Panic v, w2) => (Panic v, w2)
  end.

(** Calling a method through an interface value or pointer that is nil. *)
Definition deref {A} (x : option A) : M A :=
  match x with
  | Some a => mret a
  | None => panic NilDereference
  end.

(** Reading and updating the world. *)
Definition gets {A} (f : World -> A) : M A := fun w => (Ok (f w), w).
Definition modify (f : World -> World) : M () := fun w => (Ok (), f w).

(** [time.Now()] *)
Definition time_Now : M Z := gets clock.

(** ** Spans *)

(** [Tracer.StartSpan]: the tracer starts a span with the given tags; a
    span that has just been started has no log records and is not finished. *)
Definition startedSpan (t : Tracer) (operationName : string) (startTime : Z)
    (parent : option SpanContext) (tags : gmap string TagValue) : Span :=
  {| sp_context := Tracer_newContext t operationName parent;
     sp_operation := operationName; sp_parent := parent;
     sp_start := startTime;
     sp_tags := tags; sp_logs := []; sp_finished := 0 |}.

Definition StartSpan (t : Tracer) (operationName : string) (startTime : Z)
    (parent : option SpanContext) (tags : gmap string TagValue) : M SpanRef :=
  let sp := startedSpan t operationName startTime parent tags in
  l ← gets spans; modify (set_spans (fun l => l ++ [sp]));; mret (length l).

Definition span_SetTag (k : string) (v : TagValue) (s : Span) : Span :=
  mkSpan (sp_context s) (sp_operation s) (sp_parent s) (sp_start s) (<[k := v]> (sp_tags s)) (sp_logs s) (sp_finished s).
Definition span_LogFields (fs : list Field) (s : Span) : Span :=
  mkSpan (sp_context s) (sp_operation s) (sp_parent s) (sp_start s) (sp_tags s) (sp_logs s ++ [fs]) (sp_finished s).
Definition span_Finish (s : Span) : Span :=
  mkSpan (sp_context s) (sp_operation s) (sp_parent s) (sp_start s) (sp_tags s) (sp_logs s) (S (sp_finished s)).

(** [span.SetTag(k, v)] *)
Definition SetTag (span : SpanRef) (k : string) (v : TagValue) : M () :=
  modify (set_spans (alter (span_SetTag k v) span)).
(** [span.LogFields(fs...)] *)
Definition LogFields (span : SpanRef) (fs : list Field) : M () :=
  modify (set_spans (alter (span_LogFields fs) span)).
(** [span.Finish()] *)
Definition Finish (span : SpanRef) : M () :=
  modify (set_spans (alter span_Finish span)).
(** [span.Context()] *)
Definition Span_Context (span : SpanRef) : M SpanContext :=
  l ← gets spans; s ← deref (l !! span); mret (sp_context s).

(** [ext.Error.Set(span, b)]: opentracing's [ext.Error] is the bool tag
    named ["error"]. *)
Definition ext_Error_Set (span : SpanRef) (b : bool) : M () :=
  SetTag span "error" (VBool b).

(** [yarpcerrors.IsStatus].  Modelled from the spec: yarpcerrors is not
    part of the sources; on a non-nil error the answer is the class field
    [isStatus], and a nil error holds no status (the spec's rule for a
    response with the application-error flag and no error relies on it). *)
Definition IsStatus (err : option error) : bool :=
  match err with
  | Some e => isStatus e
  | None => false
  end.

(** ** The error classifiers (identical in both revisions) *)

Definition isNil {A} (x : option A) : bool :=
  match x with
  | None => true
  | Some _ => false
  end.

Definition updateSpanWithError (span : SpanRef) (err : option error) : M (option error) :=
  if isNil err then mret err
  else
    ext_Error_Set span true;;
    if IsStatus err then
      let status := FromError err in
      let errCode := Status_Code status in
      SetTag span "rpc.yarpc.status_code" (VString (Code_String errCode));;
      SetTag span "error.type" (VString (Code_String errCode));;
      mret err
    else
      SetTag span "error.type" (VString "unknown_internal_yarpc");;
      mret err.

Definition updateSpanWithOutboundError (span : SpanRef) (res : option Response)
    (err : option error) : M (option error) :=
  let isApplicationError :=
    match res with
    | Some r => ApplicationError r
    | None => false
    end in
  if isNil err && negb isApplicationError then mret err
  else
    ext_Error_Set span true;;
    if IsStatus err then
      let status := FromError err in
      let errCode := Status_Code status in
      SetTag span "rpc.yarpc.status_code" (VString (Code_String errCode));;
      SetTag span "error.type" (VString (Code_String errCode));;
      mret err
    else if isApplicationError then
      SetTag span "error.type" (VString "application_error");;
      mret err
    else
      SetTag span "error.type" (VString "unknown_internal_yarpc");;
      mret err.

(** ** The span factory of api/transport *)

(** Modelled from the spec: [ExtractOpenTracingSpan.Do] and
    [CreateOpenTracingSpan.Do] belong to api/transport, which is not part of
    the sources.  The spec has both start a new span through the tracer (a
    child of the parent when there is one, a root otherwise), stamp the
    static extra tags and the transport attributes on it, and return the
    execution context carrying the span together with the span handle.  The
    attributes a factory stamps are the field of this class. *)
Class SpanFactory := {
  standardTags : string -> Request -> gmap string TagValue -> gmap string TagValue;
}.
Context `{SpanFactory}.

Record ExtractOpenTracingSpan := {
  ParentSpanContext : option SpanContext;
  Extract_Tracer : option Tracer;
  Extract_TransportName : string;
  Extract_StartTime : Z;
  Extract_ExtraTags : gmap string TagValue;
}.

Record CreateOpenTracingSpan := {
  Create_Tracer : option Tracer;
  Create_TransportName : string;
  Create_StartTime : Z;
  Create_ExtraTags : gmap string TagValue;
}.

Definition ExtractOpenTracingSpan_Do (e : ExtractOpenTracingSpan) (ctx : Context)
    (req : Request) : M (Context * SpanRef) :=
  t ← deref (Extract_Tracer e);
  span ← StartSpan t (Procedure req) (Extract_StartTime e) (ParentSpanContext e)
           (standardTags (Extract_TransportName e) req (Extract_ExtraTags e));
  mret ({| ctx_span := Some span |}, span).

(** [opentracing.SpanFromContext(ctx)], then the context of that span. *)
Definition clientParent (ctx : Context) (l : list Span) : option SpanContext :=
  r ← ctx_span ctx; sp_context <$> l !! r.

Definition parentFromContext (ctx : Context) : M (option SpanContext) :=
  l ← gets spans; mret (clientParent ctx l).

Definition CreateOpenTracingSpan_Do (c : CreateOpenTracingSpan) (ctx : Context)
    (req : Request) : M (Context * SpanRef) :=
  parent ← parentFromContext ctx;
  t ← deref (Create_Tracer c);
  span ← StartSpan t (Procedure req) (Create_StartTime c) parent
           (standardTags (Create_TransportName c) req (Create_ExtraTags c));
  mret ({| ctx_span := Some span |}, span).

(** ** Construction (identical in both revisions) *)

Record Params := {
  Params_Tracer : option Tracer;
  Params_Transport : string;
}.

Record Interceptor := {
  tracer : option Tracer;
  transport : string;
  propagationFormat : BuiltinFormat;
}.

(** [opentracing.GlobalTracer()] reads the registered tracer, which
    opentracing initialises to its no-op tracer. *)
Definition opentracing_GlobalTracer : M (option Tracer) :=
  g ← gets globalTracer; mret (Some g).

Definition New (p : Params) : M Interceptor :=
  let m := {| tracer := Params_Tracer p;
              transport := Params_Transport p;
              propagationFormat := transport_GetPropagationFormat (Params_Transport p) |} in
  if isNil (tracer m) then
    g ← opentracing_GlobalTracer;
    mret {| tracer := g; transport := transport m; propagationFormat := propagationFormat m |}
  else mret m.

(** ** Downstream handlers and outbounds *)

(** A unary handler is Go code that talks to the response writer it is
    given and then returns an error, or panics.  It is a program over the
    methods of [transport.ResponseWriter]; [HSetApplicationErrorMeta] is the
    usual guarded call: assert [transport.ApplicationErrorMetaSetter] and call
    it when the assertion holds. *)
Inductive HandlerProg :=
| HReturn (err : option error)
| HPanic (v : PanicValue)
| HAddHeaders (h : transport_Headers) (k : HandlerProg)
| HWrite (p : list Byte.byte) (k : Z -> option error -> HandlerProg)
| HSetApplicationError (k : HandlerProg)
| HSetApplicationErrorMeta (meta : option ApplicationErrorMeta) (k : HandlerProg).

Definition UnaryHandler := Context -> Request -> HandlerProg.
Definition UnaryOutbound := Context -> Request -> Result (option Response * option error).
Definition OnewayHandler := Context -> Request -> Result (option error).
Definition OnewayOutbound := Context -> Request -> Result (option Ack * option error).
Definition StreamHandler := ServerStream -> Result (option error).
Definition StreamOutbound := Context -> StreamRequest -> Result (option ClientStream * option error).

(** The method set of a [transport.ResponseWriter] value. *)
Record ResponseWriterMethods := {
  rw_AddHeaders : transport_Headers -> M ();
  rw_Write : list Byte.byte -> M (Z * option error);
  rw_SetApplicationError : M ();
  rw_isMetaSetter : M bool;
  rw_SetApplicationErrorMeta : option ApplicationErrorMeta -> M ();
}.

(** Running a handler against a response writer yields the calls it made
    on the writer, in order, and the error it returned. *)
Fixpoint runHandler (rw : ResponseWriterMethods) (p : HandlerProg)
    : M (list WriterCall * option error) :=
  match p with
  | HReturn err => mret ([], err)
  | HPanic v => panic v
  | HAddHeaders h k =>
    rw_AddHeaders rw h;;
    '(cs, err) ← runHandler rw k; mret (CallAddHeaders h :: cs, err)
  | HWrite p k =>
    r ← rw_Write rw p;
    '(cs, err) ← runHandler rw (k r.1 r.2); mret (CallWrite p :: cs, err)
  | HSetApplicationError k =>
    rw_SetApplicationError rw;;
    '(cs, err) ← runHandler rw k; mret (CallSetApplicationError :: cs, err)
  | HSetApplicationErrorMeta meta k =>
    ok ← rw_isMetaSetter rw;
    if ok : bool then
      rw_SetApplicationErrorMeta rw meta;;
      '(cs, err) ← runHandler rw k; mret (CallSetApplicationErrorMeta meta :: cs, err)
    else runHandler rw k
  end.

(** Every downstream invocation is entered in the history with what it
    answered. *)
Definition record {A} (o : A -> Outcome) (r : Result A) : World -> World :=
  set_downstream (fun l => l ++ [o <$> r]).

Definition invoke {A} (o : A -> Outcome) (r : Result A) : M A := fun w => (r, record o r w).

Definition errOutcome (err : option error) : Outcome :=
  {| outcome_calls := []; outcome_response := None; outcome_err := err |}.
Definition handlerOutcome (x : list WriterCall * option error) : Outcome :=
  {| outcome_calls := x.1; outcome_response := None; outcome_err := x.2 |}.
Definition unaryOutcome (x : option Response * option error) : Outcome :=
  {| outcome_calls := []; outcome_response := x.1; outcome_err := x.2 |}.
Definition callOutcome {A} (x : option A * option error) : Outcome :=
  errOutcome x.2.

(** [h.Handle(ctx, req, resw)] *)
Definition UnaryHandler_Handle (h : UnaryHandler) (ctx : Context) (req : Request)
    (resw : ResponseWriterMethods) : M (option error) := fun w =>
  let '(r, w') := runHandler resw (h ctx req) w in
  (snd <$> r, record handlerOutcome r w').

(** [out.Call(ctx, req)] *)
Definition UnaryOutbound_Call (out : UnaryOutbound) (ctx : Context) (req : Request)
    : M (option Response * option error) :=
  invoke unaryOutcome (out ctx req).

(** [h.HandleOneway(ctx, req)] *)
Definition OnewayHandler_HandleOneway (h : OnewayHandler) (ctx : Context) (req : Request)
    : M (option error) :=
  invoke errOutcome (h ctx req).

(** [out.CallOneway(ctx, req)] *)
Definition OnewayOutbound_CallOneway (out : OnewayOutbound) (ctx : Context) (req : Request)
    : M (option Ack * option error) :=
  invoke callOutcome (out ctx req).

(** [h.HandleStream(s)] *)
Definition StreamHandler_HandleStream (h : StreamHandler) (s : ServerStream) : M (option error) :=
  invoke errOutcome (h s).

(** [out.CallStream(ctx, req)] *)
Definition StreamOutbound_CallStream (out : StreamOutbound) (ctx : Context) (req : StreamRequest)
    : M (option ClientStream * option error) :=
  invoke callOutcome (out ctx req).

(** ** The transport's response writer *)

Definition logCall (c : WriterCall) (tw : TransportWriter) : TransportWriter :=
  {| tw_calls := tw_calls tw ++ [c]; tw_isMetaSetter := tw_isMetaSetter tw;
     tw_writeErr := tw_writeErr tw |}.

Definition loadWriter (r : ResponseWriterRef) : M TransportWriter :=
  i ← deref r; w ← gets writers; deref (w !! i).

Definition receive (r : ResponseWriterRef) (c : WriterCall) : M () :=
  i ← deref r; loadWriter r;; modify (set_writers (alter (logCall c) i)).

Definition transportWriter (r : ResponseWriterRef) : ResponseWriterMethods :=
  {| rw_AddHeaders h := receive r (CallAddHeaders h);
     rw_Write p :=
       tw ← loadWriter r;
       receive r (CallWrite p);;
       match tw_writeErr tw with
       | None => mret (Z.of_nat (length p), None)
       | Some e => mret (0, Some e)
       end;
     rw_SetApplicationError := receive r CallSetApplicationError;
     rw_isMetaSetter :=
       w ← gets writers;
       mret (default false (i ← r; tw_isMetaSetter <$> w !! i));
     rw_SetApplicationErrorMeta meta := receive r (CallSetApplicationErrorMeta meta) |}.

(** [req.Headers = req.Headers.With(k, v)] for every entry of the map the
    tracer filled. *)
Definition withHeaders (hs : transport_Headers) (req : Request) : Request :=
  {| Caller := Caller req; Service := Service req; Transport := Transport req;
     Encoding := Encoding req; Procedure := Procedure req; Headers := hs; Body := Body req |}.

Definition mergeHeaders (tracingHeaders : gmap string string) (hs : transport_Headers)
    : transport_Headers :=
  map_fold (fun k v acc => Headers_With acc k v) hs tracingHeaders.

(** ** Observations and the classifiers as pure functions on a span *)

(** The value of tag [k] on span [span]. *)
Definition tag (w : World) (span : SpanRef) (k : string) : option TagValue :=
  s ← spans w !! span; sp_tags s !! k.

(** Between [w] and [w'] exactly one downstream invocation took place, and
    it answered [o]. *)
Definition answered (w w' : World) (o : Outcome) : Prop :=
  downstream w' = downstream w ++ [Ok o].

Definition classifyError (err : option error) (s : Span) : Span :=
  match err with
  | None => s
  | Some e =>
    let c := VString (Code_String (Status_Code (FromError err))) in
    if isStatus e then
      span_SetTag "error.type" c
        (span_SetTag "rpc.yarpc.status_code" c (span_SetTag "error" (VBool true) s))
    else
      span_SetTag "error.type" (VString "unknown_internal_yarpc")
        (span_SetTag "error" (VBool true) s)
  end.

Definition classifyOutbound (res : option Response) (err : option error) (s : Span) : Span :=
  let isApplicationError := default false (ApplicationError <$> res) in
  let c := VString (Code_String (Status_Code (FromError err))) in
  if isNil err && negb isApplicationError then s
  else if IsStatus err then
    span_SetTag "error.type" c
      (span_SetTag "rpc.yarpc.status_code" c (span_SetTag "error" (VBool true) s))
  else if isApplicationError then
    span_SetTag "error.type" (VString "application_error")
      (span_SetTag "error" (VBool true) s)
  else
    span_SetTag "error.type" (VString "unknown_internal_yarpc")
      (span_SetTag "error" (VBool true) s).

(** What the outbound entry points do to the span when injection fails. *)
Definition injectFailed (err : error) (s : Span) : Span :=
  span_LogFields [log_String "event" "error"; log_String "message" (Error err)]
    (span_SetTag "error" (VBool true) s).

(** What the tracer answers to the inject step of an outbound call that is
    entered in world [w] with context [ctx] for procedure [procedure]: the
    span context is the one of the span the call has just started. *)
Definition injectStep (carrier : gmap string string -> string -> Carrier)
    (m : Interceptor) (t : Tracer) (ctx : Context) (procedure : string) (w : World)
    : gmap string string * option error :=
  Tracer_Inject t (Tracer_newContext t procedure (clientParent ctx (spans w)))
    (propagationFormat m) (carrier ∅ (transport m)).

(** Whether a handler called [SetApplicationError] on its response writer. *)
Definition isSetApplicationError (c : WriterCall) : bool :=
  match c with
  | CallSetApplicationError => true
  | _ => false
  end.
Definition calledSetApplicationError (cs : list WriterCall) : bool :=
  existsb isSetApplicationError cs.

(** What the pooled revision's [Handle] does to the span before it
    classifies the error: the tag it sets when the observer saw
    [SetApplicationError]. *)
Definition observe (cs : list WriterCall) (s : Span) : Span :=
  if calledSetApplicationError cs
  then span_SetTag "error.type" (VString "application_error") s
  else s.

(** What the tracer extracts from the headers of an inbound request; the
    entry points drop the error that comes with it. *)
Definition extractStep (carrier : gmap string string -> string -> Carrier)
    (m : Interceptor) (t : Tracer) (req : Request) : option SpanContext :=
  (Tracer_Extract t (propagationFormat m)
     (carrier (Headers_Items (Headers req)) (Transport req))).1.

(** The span an inbound entry point starts in world [w]: its parent is
    whatever the tracer extracts from the request's headers. *)
Definition serverSpan (carrier : gmap string string -> string -> Carrier)
    (m : Interceptor) (t : Tracer) (req : Request) (extraTags : gmap string TagValue)
    (w : World) : Span :=
  startedSpan t (Procedure req) (clock w) (extractStep carrier m t req)
    (standardTags (Transport req) req extraTags).

(** The span an outbound entry point starts in world [w]. *)
Definition clientSpan (m : Interceptor) (t : Tracer) (ctx : Context) (req : Request)
    (extraTags : gmap string TagValue) (w : World) : Span :=
  startedSpan t (Procedure req) (clock w) (clientParent ctx (spans w))
    (standardTags (transport m) req extraTags).

(** The whole effect of an inbound entry point on the trace: one downstream
    invocation, its error (or panic) handed back, and one new span that is
    classified and finished. *)
Definition inboundRun (observe : list WriterCall -> Span -> Span) (s0 : Span)
    (w : World) (x : Result (option error) * World) : Prop :=
  ∃ hr : Result (list WriterCall * option error),
    downstream x.2 = downstream w ++ [handlerOutcome <$> hr] ∧
    x.1 = snd <$> hr ∧
    spans x.2 = spans w ++
      [span_Finish match hr with
                   | Ok a => classifyError a.2 (observe a.1 s0)
                   | Panic _ => s0
                   end].

(** The whole effect of an outbound entry point on the trace, by what the
    inject step answered. *)
Definition outboundRun {A} (toOutcome : option A * option error -> Outcome)
    (classify : Outcome -> Span -> Span) (s0 : Span) (injectErr : option error)
    (w : World) (x : Result (option A * option error) * World) : Prop :=
  match injectErr with
  | Some e =>
    downstream x.2 = downstream w ∧
    x.1 = Ok (None, Some e) ∧
    spans x.2 = spans w ++ [span_Finish (injectFailed e s0)]
  | None =>
    ∃ hr : Result (option A * option error),
      downstream x.2 = downstream w ++ [toOutcome <$> hr] ∧
      x.1 = hr ∧
      spans x.2 = spans w ++
        [span_Finish match hr with
                     | Ok a => classify (toOutcome a) s0
                     | Panic _ => s0
                     end]
  end.

(** The span carries the three tags of a structured status. *)
Definition statusTagged (w : World) (span : SpanRef) (e : error) : Prop :=
  let c := VString (Code_String (Status_Code (FromError (Some e)))) in
  tag w span "error" = Some (VBool true) ∧
  tag w span "rpc.yarpc.status_code" = Some c ∧
  tag w span "error.type" = Some c.

(** Injection failed: the span the call started carries [error = true] on
    top of the tags it was started with and one log record. *)
Definition injectMarked (w w' : World) (e : error) (tags : gmap string TagValue) : Prop :=
  ∃ s, spans w' = spans w ++ [s] ∧
       sp_tags s = <["error" := VBool true]> tags ∧
       sp_tags s !! "error.type" = tags !! "error.type" ∧
       sp_logs s = [[log_String "event" "error"; log_String "message" (Error e)]].

(** Injection failed: nothing was invoked downstream, the injection error
    is returned, and the span the call started is marked and finished. *)
Definition shortCircuited {A} (w w' : World) (e : error)
    (r : Result (option A * option error)) : Prop :=
  downstream w' = downstream w ∧
  r = Ok (None, Some e) ∧
  ∃ s, spans w' = spans w ++ [s] ∧
       sp_tags s !! "error" = Some (VBool true) ∧
       sp_finished s = 1%nat.

(** The call started exactly one span, with the given parent, and finished
    it exactly once; the spans of earlier calls are as they were. *)
Definition finishedOnce (w w' : World) (parent : option SpanContext) : Prop :=
  ∃ s, spans w' = spans w ++ [s] ∧ sp_finished s = 1%nat ∧ sp_parent s = parent.

(** Tagging, logging and finishing leave a span the span it was. *)
Definition sameSpan (s s0 : Span) : Prop :=
  sp_context s = sp_context s0 ∧ sp_operation s = sp_operation s0 ∧
  sp_parent s = sp_parent s0 ∧ sp_start s = sp_start s0.

(** The call started exactly one span, and tracer [t] started it. *)
Definition startedBy (t : Tracer) (w w' : World) : Prop :=
  ∃ s, spans w' = spans w ++ [s] ∧
       sp_context s = Tracer_newContext t (sp_operation s) (sp_parent s).

(** Frames: what a computation leaves alone. *)
Definition writersChanged (w w' : World) : Prop :=
  ∃ ws, w' = set_writers (fun _ => ws) w.

Definition sameTrace (w w' : World) : Prop :=
  spans w' = spans w ∧ downstream w' = downstream w.

Definition poolKept (w w' : World) : Prop :=
  pool w' = pool w ∧ length (heap w') = length (heap w).

(** The pooled writer at [l] exists and its flag is [b]. *)
Definition flagAt (l : Loc) (b : bool) (w : World) : Prop :=
  ∃ x, heap w !! l = Some x ∧ isApplicationError x = b.

(** A method of the wrapper at [l] keeps the trace and leaves the flag as
    [post] says. *)
Definition keeps {A} (l : Loc) (post : bool -> bool) (c : M A) : Prop :=
  ∀ w b, flagAt l b w ->
    sameTrace w (c w).2 ∧
    match (c w).1 with
    | Ok _ => flagAt l (post b) (c w).2
    | Panic _ => True
    end.

Definition withMetaHeaders (hs : transport_Headers) (req : StreamRequest) : StreamRequest :=
  let m := Meta req in
  {| Meta := {| Meta_Caller := Meta_Caller m; Meta_Service := Meta_Service m;
                Meta_Transport := Meta_Transport m; Meta_Encoding := Meta_Encoding m;
                Meta_Procedure := Meta_Procedure m; Meta_Headers := hs |} |}.

End Embedding.

(** ** internal/tracinginterceptor/interceptor.go *)

Module Plain.
Section Plain.
Context `{YarpcErrors} `{TransportAPI} `{!SpanFactory}.

Definition Handle (m : Interceptor) (ctx : Context) (req : Request)
    (resw : ResponseWriterRef) (h : UnaryHandler) : M (option error) :=
  t ← deref (tracer m);
  let '(parentSpanCtx, _) :=
    Tracer_Extract t (propagationFormat m)
      (transport_GetPropagationCarrier (Headers_Items (Headers req)) (Transport req)) in
  now ← time_Now;
  let extractOpenTracingSpan :=
    {| ParentSpanContext := parentSpanCtx; Extract_Tracer := tracer m;
       Extract_TransportName := Transport req; Extract_StartTime := now;
       Extract_ExtraTags := ∅ |} in
  '(ctx, span) ← ExtractOpenTracingSpan_Do extractOpenTracingSpan ctx req;
  defer (Finish span) (
    err ← UnaryHandler_Handle h ctx req (transportWriter resw);
    updateSpanWithError span err).

Definition Call (m : Interceptor) (ctx : Context) (req : Request) (out : UnaryOutbound)
    : M (option Response * option error) :=
  now ← time_Now;
  let createOpenTracingSpan :=
    {| Create_Tracer := tracer m; Create_TransportName := transport m;
       Create_StartTime := now; Create_ExtraTags := ∅ |} in
  '(ctx, span) ← CreateOpenTracingSpan_Do createOpenTracingSpan ctx req;
  defer (Finish span) (
    t ← deref (tracer m);
    sc ← Span_Context span;
    let '(tracingHeaders, injectErr) :=
      Tracer_Inject t sc (propagationFormat m) (transport_GetPropagationCarrier ∅ (transport m)) in
    match injectErr with
    | Some err =>
      ext_Error_Set span true;;
      LogFields span [log_String "event" "error"; log_String "message" (Error err)];;
      mret (None, Some err)
    | None =>
      let req := withHeaders (mergeHeaders tracingHeaders (Headers req)) req in
      '(res, err) ← UnaryOutbound_Call out ctx req;
      err ← updateSpanWithOutboundError span res err;
      mret (res, err)
    end).

Definition HandleOneway (m : Interceptor) (ctx : Context) (req : Request)
    (h : OnewayHandler) : M (option error) :=
  t ← deref (tracer m);
  let '(parentSpanCtx, _) :=
    Tracer_Extract t (propagationFormat m)
      (transport_GetPropagationCarrier (Headers_Items (Headers req)) (Transport req)) in
  now ← time_Now;
  let extractOpenTracingSpan :=
    {| ParentSpanContext := parentSpanCtx; Extract_Tracer := tracer m;
       Extract_TransportName := Transport req; Extract_StartTime := now;
       Extract_ExtraTags := ∅ |} in
  '(ctx, span) ← ExtractOpenTracingSpan_Do extractOpenTracingSpan ctx req;
  defer (Finish span) (
    err ← OnewayHandler_HandleOneway h ctx req;
    updateSpanWithError span err).

Definition CallOneway (m : Interceptor) (ctx : Context) (req : Request) (out : OnewayOutbound)
    : M (option Ack * option error) :=
  now ← time_Now;
  let createOpenTracingSpan :=
    {| Create_Tracer := tracer m; Create_TransportName := transport m;
       Create_StartTime := now; Create_ExtraTags := ∅ |} in
  '(ctx, span) ← CreateOpenTracingSpan_Do createOpenTracingSpan ctx req;
  defer (Finish span) (
    t ← deref (tracer m);
    sc ← Span_Context span;
    let '(tracingHeaders, injectErr) :=
      Tracer_Inject t sc (propagationFormat m) (transport_GetPropagationCarrier ∅ (transport m)) in
    match injectErr with
    | Some err =>
      ext_Error_Set span true;;
      LogFields span [log_String "event" "error"; log_String "message" (Error err)];;
      mret (None, Some err)
    | None =>
      let req := withHeaders (mergeHeaders tracingHeaders (Headers req)) req in
      '(ack, err) ← OnewayOutbound_CallOneway out ctx req;
      err ← updateSpanWithError span err;
      mret (ack, err)
    end).

Definition HandleStream (m : Interceptor) (s : ServerStream) (h : StreamHandler)
    : M (option error) :=
  let meta := Meta (Stream_Request s) in
  t ← deref (tracer m);
  let '(parentSpanCtx, _) :=
    Tracer_Extract t (propagationFormat m)
      (transport_GetPropagationCarrier (Headers_Items (Meta_Headers meta)) (Meta_Transport meta)) in
  now ← time_Now;
  let extractOpenTracingSpan :=
    {| ParentSpanContext := parentSpanCtx; Extract_Tracer := tracer m;
       Extract_TransportName := Meta_Transport meta; Extract_StartTime := now;
       Extract_ExtraTags := ∅ |} in
  '(_, span) ← ExtractOpenTracingSpan_Do extractOpenTracingSpan (Stream_Context s) (ToRequest meta);
  defer (Finish span) (
    err ← StreamHandler_HandleStream h s;
    updateSpanWithError span err).

Definition CallStream (m : Interceptor) (ctx : Context) (req : StreamRequest)
    (out : StreamOutbound) : M (option ClientStream * option error) :=
  now ← time_Now;
  let createOpenTracingSpan :=
    {| Create_Tracer := tracer m; Create_TransportName := transport m;
       Create_StartTime := now; Create_ExtraTags := ∅ |} in
  '(ctx, span) ← CreateOpenTracingSpan_Do createOpenTracingSpan ctx (ToRequest (Meta req));
  defer (Finish span) (
    t ← deref (tracer m);
    sc ← Span_Context span;
    let '(tracingHeaders, injectErr) :=
      Tracer_Inject t sc (propagationFormat m) (transport_GetPropagationCarrier ∅ (transport m)) in
    match injectErr with
    | Some err =>
      ext_Error_Set span true;;
      LogFields span [log_String "event" "error"; log_String "message" (Error err)];;
      mret (None, Some err)
    | None =>
      let req := withMetaHeaders (mergeHeaders tracingHeaders (Meta_Headers (Meta req))) req in
      '(clientStream, err) ← StreamOutbound_CallStream out ctx req;
      err ← updateSpanWithError span err;
      mret (clientStream, err)
    end).

End Plain.
End Plain.

(** ** The revision with the pooled response observer *)

Module Pooled.
Section Pooled.
Context `{YarpcErrors} `{TransportAPI} `{!SpanFactory}.

(** Go's [int] is 64 bits wide and wraps around. *)
Definition wrap_int (z : Z) : Z := (z + 2 ^ 63) mod 2 ^ 64 - 2 ^ 63.

(** [writer{ResponseWriter: rw}] *)
Definition freshWriter (rw : ResponseWriterRef) : writer :=
  {| ResponseWriter := rw; isApplicationError := false;
     applicationErrorMeta := None; responseSize := 0 |}.

(** [&writer{}] *)
Definition zeroWriter : writer :=
  {| ResponseWriter := None; isApplicationError := false;
     applicationErrorMeta := None; responseSize := 0 |}.

(** Reading and writing through a [*writer]. *)
Definition load (w : Loc) : M writer :=
  h ← gets heap; deref (h !! w).
Definition store (w : Loc) (x : writer) : M () :=
  load w;; modify (set_heap (fun h => <[w := x]> h)).

(** [_writerPool.New] allocates a fresh zero-valued writer. *)
Definition writerPool_New : M Loc :=
  h ← gets heap;
  modify (set_heap (fun h => h ++ [zeroWriter]));;
  mret (length h).

(** [_writerPool.Get()] removes the pooled object this call selects and
    returns it; when there is none it returns [New()]. *)
Definition writerPool_Get : M Loc :=
  cs ← gets poolChoices;
  modify (set_poolChoices tail);;
  p ← gets pool;
  let i := hd 0%nat cs in
  match p !! i with
  | Some w => modify (set_pool (delete i));; mret w
  | None => writerPool_New
  end.

(** [_writerPool.Put(w)] *)
Definition writerPool_Put (w : Loc) : M () :=
  modify (set_pool (fun p => p ++ [w])).

Definition newWriter (rw : ResponseWriterRef) : M Loc :=
  w ← writerPool_Get;
  store w (freshWriter rw);;
  mret w.

Definition writer_SetApplicationError (w : Loc) : M () :=
  x ← load w;
  store w {| ResponseWriter := ResponseWriter x; isApplicationError := true;
             applicationErrorMeta := applicationErrorMeta x;
             responseSize := responseSize x |};;
  x ← load w;
  rw_SetApplicationError (transportWriter (ResponseWriter x)).

Definition writer_SetApplicationErrorMeta (w : Loc)
    (meta : option ApplicationErrorMeta) : M () :=
  if isNil meta then mret ()
  else
    x ← load w;
    store w {| ResponseWriter := ResponseWriter x;
               isApplicationError := isApplicationError x;
               applicationErrorMeta := meta;
               responseSize := responseSize x |};;
    x ← load w;
    ok ← rw_isMetaSetter (transportWriter (ResponseWriter x));
    if ok : bool then rw_SetApplicationErrorMeta (transportWriter (ResponseWriter x)) meta
    else mret ().

Definition writer_Write (w : Loc) (p : list Byte.byte) : M (Z * option error) :=
  x ← load w;
  store w {| ResponseWriter := ResponseWriter x;
             isApplicationError := isApplicationError x;
             applicationErrorMeta := applicationErrorMeta x;
             responseSize := wrap_int (responseSize x + Z.of_nat (length p)) |};;
  x ← load w;
  rw_Write (transportWriter (ResponseWriter x)) p.

(** [AddHeaders] is promoted from the embedded [transport.ResponseWriter]. *)
Definition writer_AddHeaders (w : Loc) (h : transport_Headers) : M () :=
  x ← load w;
  rw_AddHeaders (transportWriter (ResponseWriter x)) h.

Definition writer_free (w : Loc) : M () :=
  writerPool_Put w.

(** The method set of a [*writer]; it implements
    [transport.ApplicationErrorMetaSetter]. *)
Definition writerMethods (w : Loc) : ResponseWriterMethods :=
  {| rw_AddHeaders := writer_AddHeaders w;
     rw_Write := writer_Write w;
     rw_SetApplicationError := writer_SetApplicationError w;
     rw_isMetaSetter := mret true;
     rw_SetApplicationErrorMeta := writer_SetApplicationErrorMeta w |}.

Definition Handle (m : Interceptor) (ctx : Context) (req : Request)
    (resw : ResponseWriterRef) (h : UnaryHandler) : M (option error) :=
  t ← deref (tracer m);
  let '(parentSpanCtx, _) :=
    Tracer_Extract t (propagationFormat m)
      (tchannel_GetPropagationCarrier (Headers_Items (Headers req)) (Transport req)) in
  now ← time_Now;
  let extractOpenTracingSpan :=
    {| ParentSpanContext := parentSpanCtx; Extract_Tracer := tracer m;
       Extract_TransportName := Transport req; Extract_StartTime := now;
       Extract_ExtraTags := CommonTracingTags |} in
  '(ctx, span) ← ExtractOpenTracingSpan_Do extractOpenTracingSpan ctx req;
  defer (Finish span) (
    wrappedWriter ← newWriter resw;
    err ← UnaryHandler_Handle h ctx req (writerMethods wrappedWriter);
    x ← load wrappedWriter;
    (if isApplicationError x
     then SetTag span "error.type" (VString "application_error")
     else mret ());;
    writer_free wrappedWriter;;
    updateSpanWithError span err).

Definition Call (m : Interceptor) (ctx : Context) (req : Request) (out : UnaryOutbound)
    : M (option Response * option error) :=
  now ← time_Now;
  let createOpenTracingSpan :=
    {| Create_Tracer := tracer m; Create_TransportName := transport m;
       Create_StartTime := now; Create_ExtraTags := CommonTracingTags |} in
  '(ctx, span) ← CreateOpenTracingSpan_Do createOpenTracingSpan ctx req;
  defer (Finish span) (
    t ← deref (tracer m);
    sc ← Span_Context span;
    let '(tracingHeaders, injectErr) :=
      Tracer_Inject t sc (propagationFormat m) (tchannel_GetPropagationCarrier ∅ (transport m)) in
    match injectErr with
    | Some err =>
      ext_Error_Set span true;;
      LogFields span [log_String "event" "error"; log_String "message" (Error err)];;
      mret (None, Some err)
    | None =>
      let req := withHeaders (mergeHeaders tracingHeaders (Headers req)) req in
      '(res, err) ← UnaryOutbound_Call out ctx req;
      err ← updateSpanWithOutboundError span res err;
      mret (res, err)
    end).

(** Users of the pool: an acquisition, a use of an acquired writer through
    one of its methods, and a release. *)
Inductive PoolOp :=
| Acquire (rw : ResponseWriterRef)
| UseAddHeaders (w : Loc) (h : transport_Headers)
| UseWrite (w : Loc) (p : list Byte.byte)
| UseSetApplicationError (w : Loc)
| UseSetApplicationErrorMeta (w : Loc) (meta : option ApplicationErrorMeta)
| Release (w : Loc).

Definition poolStep (op : PoolOp) (w : World) : World :=
  match op with
  | Acquire rw => (newWriter rw w).2
  | UseAddHeaders l h => (writer_AddHeaders l h w).2
  | UseWrite l p => (writer_Write l p w).2
  | UseSetApplicationError l => (writer_SetApplicationError l w).2
  | UseSetApplicationErrorMeta l meta => (writer_SetApplicationErrorMeta l meta w).2
  | Release l => (writer_free l w).2
  end.

Definition poolRun (ops : list PoolOp) (w : World) : World :=
  fold_left (fun w op => poolStep op w) ops w.

(** Go code can only release a writer it holds: every released pointer
    refers to an allocated object. *)
Fixpoint releasesAllocated (ops : list PoolOp) (w : World) : Prop :=
  match ops with
  | [] => True
  | op :: ops =>
    match op with
    | Release l => (l < length (heap w))%nat
    | _ => True
    end ∧ releasesAllocated ops (poolStep op w)
  end.

(** The pool holds pointers to allocated objects only. *)
Definition poolValid (w : World) : Prop :=
  Forall (fun l => (l < length (heap w))%nat) (pool w).

(** The four remaining entry points are not implemented in this revision. *)
Definition HandleOneway (m : Interceptor) (ctx : Context) (req : Request)
    (h : OnewayHandler) : M (option error) :=
  panic (PanicString "implement me").

Definition CallOneway (m : Interceptor) (ctx : Context) (req : Request) (out : OnewayOutbound)
    : M (option Ack * option error) :=
  panic (PanicString "implement me").

Definition HandleStream (m : Interceptor) (s : ServerStream) (h : StreamHandler)
    : M (option error) :=
  panic (PanicString "implement me").

Definition CallStream (m : Interceptor) (ctx : Context) (req : StreamRequest)
    (out : StreamOutbound) : M (option ClientStream * option error) :=
  panic (PanicString "implement me").

End Pooled.
End Pooled.

(** ** Concrete collaborators

    A small universe in which calls can be run: two kinds of errors, headers
    as string maps, a tracer that injects one header and one whose inject
    step fails, and a span factory that stamps caller, service, encoding and
    transport. *)

Module Fixture.

Inductive err :=
| StatusError (code : nat) (message : string)
| RawError (message : string).

Definition codeName (c : nat) : string :=
  match c with
  | 0%nat => "ok"
  | 2%nat => "unknown"
  | 13%nat => "internal"
  | _ => "other"
  end.

Definition errors : YarpcErrors :=
  {| error := err;
     Status := option (nat * string);
     Code := nat;
     isStatus e := match e with StatusError _ _ => true | RawError _ => false end;
     FromError e :=
       match e with
       | Some (StatusError c m) => Some (c, m)
       | Some (RawError m) => Some (2%nat, m)
       | None => None
       end;
     Status_Code s := match s with Some (c, _) => c | None => 0%nat end;
     Code_String := codeName;
     Error e := match e with StatusError _ m => m | RawError m => m end |}.

Definition api : TransportAPI :=
  {| transport_Headers := gmap string string;
     Headers_With hs k v := <[k := v]> hs;
     Headers_Items hs := hs;
     Carrier := gmap string string;
     transport_GetPropagationFormat tr := if String.eqb tr "tchannel" then TextMap else HTTPHeaders;
     transport_GetPropagationCarrier hs _ := hs;
     tchannel_GetPropagationCarrier hs _ := hs;
     Ack := string;
     ClientStream := nat;
     CommonTracingTags := {[ "component" := VString "yarpc" ]} |}.

#[local] Existing Instance errors.
#[local] Existing Instance api.

Definition factory : SpanFactory :=
  {| standardTags tr req extra :=
       <["rpc.transport" := VString tr]>
         (<["rpc.encoding" := VString (Encoding req)]>
            (<["rpc.service" := VString (Service req)]>
               (<["rpc.caller" := VString (Caller req)]> extra))) |}.

#[local] Existing Instance factory.

Definition goodTracer : Tracer :=
  {| Tracer_newContext _ _ := 7%nat;
     Tracer_Inject sc _ _ := ({[ "uber-trace-id" := "7" ]}, None);
     Tracer_Extract _ _ := (None, Some (RawError "SpanContext not found in Extract carrier")) |}.

Definition failingTracer : Tracer :=
  {| Tracer_newContext _ _ := 7%nat;
     Tracer_Inject sc _ _ := (∅, Some (RawError "inject failed" : error));
     Tracer_Extract _ _ := (None, None) |}.

Definition world0 : World :=
  {| spans := []; downstream := [];
     writers := [{| tw_calls := []; tw_isMetaSetter := true; tw_writeErr := None |}];
     heap := []; pool := []; poolChoices := [];
     clock := 1700000000; globalTracer := goodTracer |}.

Definition m0 : Interceptor :=
  {| tracer := Some goodTracer; transport := "http"; propagationFormat := HTTPHeaders |}.

Definition mFailing : Interceptor :=
  {| tracer := Some failingTracer; transport := "http"; propagationFormat := HTTPHeaders |}.

Definition ctx0 : Context := {| ctx_span := None |}.

Definition req0 : Request :=
  {| Caller := "caller"; Service := "service"; Transport := "http"; Encoding := "raw";
     Procedure := "hello"; Headers := ∅; Body := [] |}.

Definition sreq0 : StreamRequest :=
  {| Meta := {| Meta_Caller := "caller"; Meta_Service := "service"; Meta_Transport := "http";
                Meta_Encoding := "raw"; Meta_Procedure := "hello"; Meta_Headers := ∅ |} |}.

Definition appErrResponse : Response :=
  {| Response_Headers := ∅; Response_Body := []; ApplicationError := true |}.

Definition internalError : error := StatusError 13 "boom".
Definition rawError : error := RawError "boom".
Definition injectError : error := RawError "inject failed".

(** Outbounds: one fails with status [internal], one answers an
    application error, one answers an application error together with a raw
    error, one fails with a raw error and no response. *)
Definition outInternal : UnaryOutbound :=
  fun _ _ => Ok (None, Some internalError).
Definition outAppErr : UnaryOutbound :=
  fun _ _ => Ok (Some appErrResponse, None).
Definition outAppErrRaw : UnaryOutbound :=
  fun _ _ => Ok (Some appErrResponse, Some rawError).
Definition outRaw : UnaryOutbound :=
  fun _ _ => Ok (None, Some rawError).

(** Handlers: one marks an application error, writes a body and returns
    nil; one returns a status error; one panics. *)
Definition handlerAppErr : UnaryHandler :=
  fun _ _ => HSetApplicationError (HWrite [Byte.x6f; Byte.x6b] (fun _ _ => HReturn None)).
Definition handlerInternal : UnaryHandler :=
  fun _ _ => HReturn (Some internalError).
Definition handlerPanics : UnaryHandler :=
  fun _ _ => HWrite [Byte.x6f] (fun _ _ => HPanic (PanicString "handler gave up")).

(** A user of the pool: acquire, use, release. *)
Definition poolOps : list Pooled.PoolOp :=
  [Pooled.Acquire (Some 0%nat); Pooled.UseSetApplicationError 0%nat;
   Pooled.UseWrite 0%nat [Byte.x68; Byte.x69]; Pooled.Release 0%nat].

Definition params0 : Params := {| Params_Tracer := None; Params_Transport := "http" |}.

End Fixture.



(** ** Package interceptor: the no-op outbound and the function adapter *)

Module interceptor.
Section interceptor.
Context `{YarpcErrors} `{TransportAPI}.

(** [nopUnaryOutbound]: a [transport.UnaryOutbound] whose methods do nothing. *)
Definition nopUnaryOutbound_Call : UnaryOutbound :=
  fun ctx req => Ok (None, None).
Definition nopUnaryOutbound_Start : option error := None.
Definition nopUnaryOutbound_Stop : option error := None.
Definition nopUnaryOutbound_IsRunning : bool := false.
(** [Transports] returns a nil slice; a transport is an opaque handle. *)
Definition nopUnaryOutbound_Transports : list nat := [].

(** [UnaryOutboundFunc]: a function used as a [transport.UnaryOutbound]. *)
Definition UnaryOutboundFunc_Call (f : UnaryOutbound) : UnaryOutbound :=
  fun ctx req => f ctx req.
Definition UnaryOutboundFunc_Start (f : UnaryOutbound) : option error := None.
Definition UnaryOutboundFunc_Stop (f : UnaryOutbound) : option error := None.
Definition UnaryOutboundFunc_IsRunning (f : UnaryOutbound) : bool := false.
Definition UnaryOutboundFunc_Transports (f : UnaryOutbound) : list nat := [].

End interceptor.
End interceptor.

(** ** Further observations *)

Section Observations.
Context `{YarpcErrors} `{TransportAPI} `{!SpanFactory}.

(** The call started exactly one span and finished it once without
    tagging or logging anything: the span has the tags it was started with. *)
Definition finishedUntagged (w w' : World) (tags : gmap string TagValue) : Prop :=
  ∃ s, spans w' = spans w ++ [s] ∧ sp_tags s = tags ∧ sp_logs s = [] ∧
       sp_finished s = 1%nat.

(** The keys the classifiers write. *)
Definition errorKeys : list string := ["error"; "error.type"; "rpc.yarpc.status_code"].

(** Between [w] and [w'] nothing changed but tags of span [span] under the
    classifiers' keys. *)
Definition onlyErrorTags (span : SpanRef) (w w' : World) : Prop :=
  length (spans w') = length (spans w) ∧
  (∀ i, i ≠ span -> spans w' !! i = spans w !! i) ∧
  (∀ k, k ∉ errorKeys -> tag w' span k = tag w span k) ∧
  (sp_logs <$> spans w' !! span) = (sp_logs <$> spans w !! span) ∧
  (sp_finished <$> spans w' !! span) = (sp_finished <$> spans w !! span) ∧
  (sp_context <$> spans w' !! span) = (sp_context <$> spans w !! span) ∧
  downstream w' = downstream w ∧ writers w' = writers w ∧
  heap w' = heap w ∧ pool w' = pool w.

(** Which of the calls a handler makes on the pooled writer reach the
    transport's writer: all but [SetApplicationErrorMeta], which is dropped
    for a nil argument and for a transport writer that is no
    [ApplicationErrorMetaSetter]. *)
Definition forwardedCall (isSetter : bool) (c : WriterCall) : bool :=
  match c with
  | CallSetApplicationErrorMeta None => false
  | CallSetApplicationErrorMeta (Some _) => isSetter
  | _ => true
  end.

Definition forwarded (isSetter : bool) (cs : list WriterCall) : list WriterCall :=
  List.filter (forwardedCall isSetter) cs.

(** The bytes handed to [Write]. *)
Fixpoint totalBytes (cs : list WriterCall) : Z :=
  match cs with
  | [] => 0
  | CallWrite p :: cs => Z.of_nat (length p) + totalBytes cs
  | _ :: cs => totalBytes cs
  end.

(** The byte count of the pooled writer after the calls [cs], starting
    from [z]: every [Write] adds the length of its argument, in Go's [int]. *)
Fixpoint sizeAfter (cs : list WriterCall) (z : Z) : Z :=
  match cs with
  | [] => z
  | CallWrite p :: cs => sizeAfter cs (Pooled.wrap_int (z + Z.of_nat (length p)))
  | _ :: cs => sizeAfter cs z
  end.

(** The last non-nil metadata handed to [SetApplicationErrorMeta]. *)
Fixpoint lastMeta (cs : list WriterCall) (m0 : option ApplicationErrorMeta)
    : option ApplicationErrorMeta :=
  match cs with
  | [] => m0
  | CallSetApplicationErrorMeta (Some a) :: cs => lastMeta cs (Some a)
  | _ :: cs => lastMeta cs m0
  end.

(** The pooled writer at [l] wraps the transport writer at [r]. *)
Definition wraps (l : Loc) (r : nat) (x : writer) (tw : TransportWriter) (w : World) : Prop :=
  heap w !! l = Some x ∧ ResponseWriter x = Some r ∧ writers w !! r = Some tw.

(** The pooled writer after each of its recording methods. *)
Definition withFlag (x : writer) : writer :=
  {| ResponseWriter := ResponseWriter x; isApplicationError := true;
     applicationErrorMeta := applicationErrorMeta x; responseSize := responseSize x |}.
Definition withMeta (meta : option ApplicationErrorMeta) (x : writer) : writer :=
  {| ResponseWriter := ResponseWriter x; isApplicationError := isApplicationError x;
     applicationErrorMeta := meta; responseSize := responseSize x |}.
Definition withBytes (p : list Byte.byte) (x : writer) : writer :=
  {| ResponseWriter := ResponseWriter x; isApplicationError := isApplicationError x;
     applicationErrorMeta := applicationErrorMeta x;
     responseSize := Pooled.wrap_int (responseSize x + Z.of_nat (length p)) |}.

(** The index the next [Get] on the pool selects. *)
Definition nextChoice (w : World) : nat := hd 0%nat (poolChoices w).

End Observations.

(** More collaborators to run calls with. *)
Module Scenarios.
Import Fixture.
#[local] Existing Instance Fixture.errors.
#[local] Existing Instance Fixture.api.
#[local] Existing Instance Fixture.factory.

Definition outOk : UnaryOutbound :=
  fun _ _ => Ok (Some {| Response_Headers := ∅; Response_Body := []; ApplicationError := false |}, None).
Definition outPanics : UnaryOutbound :=
  fun _ _ => Panic (PanicString "connection lost").
Definition onewayRaw : OnewayHandler :=
  fun _ _ => Ok (Some rawError).
Definition handlerOk : UnaryHandler :=
  fun _ _ => HWrite [Byte.x6f; Byte.x6b] (fun _ _ => HReturn None).

(** A handler that uses every method of the response writer. *)
Definition busyHandler : HandlerProg :=
  HAddHeaders ∅
    (HSetApplicationErrorMeta None
       (HSetApplicationErrorMeta (Some {| Details := "d"; Name := "n"; Meta_Code := None |})
          (HWrite [Byte.x68; Byte.x69]
             (fun _ _ => HSetApplicationError (HWrite [Byte.x21] (fun _ _ => HReturn None)))))).

(** The calls [busyHandler] makes. *)
Definition busyCalls : list WriterCall :=
  [CallAddHeaders ∅; CallSetApplicationErrorMeta None;
   CallSetApplicationErrorMeta (Some {| Details := "d"; Name := "n"; Meta_Code := None |});
   CallWrite [Byte.x68; Byte.x69]; CallSetApplicationError; CallWrite [Byte.x21]].

(** The transport's response writer of [world0], untouched. *)
Definition quietWriter : TransportWriter :=
  {| tw_calls := []; tw_isMetaSetter := true; tw_writeErr := None |}.

Definition onewayOk : OnewayHandler := fun _ _ => Ok None.

(** A world in which the writer at 0 wraps the transport writer at 0. *)
Definition worldWrapped : World :=
  {| spans := []; downstream := [];
     writers := [{| tw_calls := []; tw_isMetaSetter := true; tw_writeErr := None |}];
     heap := [Pooled.freshWriter (Some 0%nat)]; pool := []; poolChoices := [];
     clock := 1700000000; globalTracer := goodTracer |}.

(** The zero value of [Interceptor]. *)
Definition zeroInterceptor : Interceptor :=
  {| tracer := None; transport := ""; propagationFormat := Binary |}.

End Scenarios.

Section Theory.
Context `{YarpcErrors} `{TransportAPI} `{!SpanFactory}.

Lemma alter_snoc {A} (f : A -> A) (l : list A) (x : A) :
  alter f (length l) (l ++ [x]) = l ++ [f x].
Proof.
  replace (length l) with (length l + 0)%nat by lia.
  by rewrite alter_app_r.
Qed.

Lemma lookup_snoc {A} (l : list A) (x : A) : (l ++ [x]) !! length l = Some x.
Proof. by apply list_lookup_middle. Qed.

Lemma snoc_neq {A} (l : list A) (x : A) : l ++ [x] ≠ l.
Proof. intros E. apply (f_equal length) in E. rewrite length_app in E. simpl in E. lia. Qed.

Ltac run :=
  repeat (progress (cbn -[alter];
    unfold mbind, mret, M_bind, M_ret, gets, modify, defer, panic, deref, time_Now,
      ExtractOpenTracingSpan_Do, CreateOpenTracingSpan_Do, StartSpan, parentFromContext,
      Span_Context, SetTag, LogFields, Finish, ext_Error_Set, invoke, record,
      UnaryOutbound_Call, OnewayHandler_HandleOneway, OnewayOutbound_CallOneway,
      StreamHandler_HandleStream, StreamOutbound_CallStream,
      set_spans, set_downstream, set_writers, set_heap, set_pool, set_poolChoices;
    cbn -[alter])).

Lemma updateSpanWithError_run span err w :
  updateSpanWithError span err w = (Ok err, set_spans (alter (classifyError err) span) w).
Proof.
  unfold updateSpanWithError, classifyError. destruct err as [e|]; run.
  - destruct (isStatus e); run; by rewrite ?list_alter_alter_eq.
  - rewrite list_alter_id by done. by destruct w.
Qed.

Lemma updateSpanWithOutboundError_run span res err w :
  updateSpanWithOutboundError span res err w =
  (Ok err, set_spans (alter (classifyOutbound res err) span) w).
Proof.
  unfold updateSpanWithOutboundError, classifyOutbound.
  destruct res as [[hs b [|]]|], err as [e|]; run;
    try (destruct (isStatus e); run); rewrite ?list_alter_alter_eq; try done.
  all: rewrite list_alter_id by done; by destruct w.
Qed.

Lemma HandleOneway_run m t ctx req h w :
  tracer m = Some t ->
  inboundRun (fun _ s => s) (serverSpan transport_GetPropagationCarrier m t req ∅ w) w
    (Plain.HandleOneway m ctx req h w).
Proof.
  intros Ht. unfold Plain.HandleOneway, serverSpan, extractStep. rewrite Ht. run.
  destruct (Tracer_Extract t _ _) as [parent xerr]. run.
  exists ((fun e => ([], e)) <$> h {| ctx_span := Some (length (spans w)) |} req).
  destruct (h _ _) as [err|v]; run; rewrite ?updateSpanWithError_run; run;
    rewrite ?alter_snoc; done.
Qed.

Lemma HandleStream_run m t s h w :
  tracer m = Some t ->
  inboundRun (fun _ s => s)
    (serverSpan transport_GetPropagationCarrier m t (ToRequest (Meta (Stream_Request s))) ∅ w) w
    (Plain.HandleStream m s h w).
Proof.
  intros Ht. unfold Plain.HandleStream, serverSpan, extractStep. rewrite Ht. run.
  destruct (Tracer_Extract t _ _) as [parent xerr]. run.
  exists ((fun e => ([], e)) <$> h s).
  destruct (h s) as [err|v]; run; rewrite ?updateSpanWithError_run; run;
    rewrite ?alter_snoc; done.
Qed.

Lemma Call_run m t ctx req out w :
  tracer m = Some t ->
  outboundRun unaryOutcome (fun o => classifyOutbound (outcome_response o) (outcome_err o))
    (clientSpan m t ctx req ∅ w)
    (injectStep transport_GetPropagationCarrier m t ctx (Procedure req) w).2 w
    (Plain.Call m ctx req out w).
Proof.
  intros Ht. unfold Plain.Call, clientSpan, injectStep. rewrite Ht. run.
  rewrite lookup_snoc. run.
  destruct (Tracer_Inject t _ _ _) as [hs [e|]]; run.
  - by rewrite !alter_snoc.
  - match goal with |- context [out ?c ?r] => exists (out c r); destruct (out c r) as [[res err]|v] end;
      run; rewrite ?updateSpanWithOutboundError_run; run; rewrite ?alter_snoc; done.
Qed.

Lemma CallOneway_run m t ctx req out w :
  tracer m = Some t ->
  outboundRun callOutcome (fun o => classifyError (outcome_err o))
    (clientSpan m t ctx req ∅ w)
    (injectStep transport_GetPropagationCarrier m t ctx (Procedure req) w).2 w
    (Plain.CallOneway m ctx req out w).
Proof.
  intros Ht. unfold Plain.CallOneway, clientSpan, injectStep. rewrite Ht. run.
  rewrite lookup_snoc. run.
  destruct (Tracer_Inject t _ _ _) as [hs [e|]]; run.
  - by rewrite !alter_snoc.
  - match goal with |- context [out ?c ?r] => exists (out c r); destruct (out c r) as [[res err]|v] end;
      run; rewrite ?updateSpanWithError_run; run; rewrite ?alter_snoc; done.
Qed.

Lemma CallStream_run m t ctx req out w :
  tracer m = Some t ->
  outboundRun callOutcome (fun o => classifyError (outcome_err o))
    (clientSpan m t ctx (ToRequest (Meta req)) ∅ w)
    (injectStep transport_GetPropagationCarrier m t ctx (Meta_Procedure (Meta req)) w).2 w
    (Plain.CallStream m ctx req out w).
Proof.
  intros Ht. unfold Plain.CallStream, clientSpan, injectStep. rewrite Ht. run.
  rewrite lookup_snoc. run.
  destruct (Tracer_Inject t _ _ _) as [hs [e|]]; run.
  - by rewrite !alter_snoc.
  - match goal with |- context [out ?c ?r] => exists (out c r); destruct (out c r) as [[res err]|v] end;
      run; rewrite ?updateSpanWithError_run; run; rewrite ?alter_snoc; done.
Qed.

(** *** Handlers only touch response writers *)

#[local] Instance writersChanged_preorder : PreOrder writersChanged.
Proof.
  split.
  - intros w. exists (writers w). by destruct w.
  - intros w1 w2 w3 [ws1 ->] [ws2 ->]. by exists ws2.
Qed.

Lemma frame_bind {A B} (R : relation World) `{!PreOrder R} (m : M A) (f : A -> M B) :
  (∀ w, R w (m w).2) -> (∀ a w, R w (f a w).2) -> ∀ w, R w ((m ≫= f) w).2.
Proof.
  intros Hm Hf w. unfold mbind, M_bind. specialize (Hm w).
  destruct (m w) as [[a|v] w1]; cbn in *; [|done].
  etrans; [exact Hm | apply Hf].
Qed.

Lemma frame_ret {A} (R : relation World) `{!PreOrder R} (a : A) w :
  R w ((mret a : M A) w).2.
Proof. done. Qed.

Lemma loadWriter_frame r w : writersChanged w (loadWriter r w).2.
Proof.
  unfold loadWriter. destruct r as [i|]; run; [|done].
  destruct (writers w !! i); run; done.
Qed.

Lemma receive_frame r c w : writersChanged w (receive r c w).2.
Proof.
  unfold receive, loadWriter. destruct r as [i|]; run; [|done].
  destruct (writers w !! i); run; [|done]. by eexists.
Qed.

Lemma transportWriter_frame r :
  (∀ h w, writersChanged w (rw_AddHeaders (transportWriter r) h w).2) ∧
  (∀ p w, writersChanged w (rw_Write (transportWriter r) p w).2) ∧
  (∀ w, writersChanged w (rw_SetApplicationError (transportWriter r) w).2) ∧
  (∀ w, writersChanged w (rw_isMetaSetter (transportWriter r) w).2) ∧
  (∀ meta w, writersChanged w (rw_SetApplicationErrorMeta (transportWriter r) meta w).2).
Proof.
  repeat split; intros; cbn -[receive loadWriter]; try apply receive_frame.
  - apply frame_bind; [apply _|apply loadWriter_frame|]. intros tw w0.
    apply frame_bind; [apply _|apply receive_frame|]. intros _ w1.
    destruct (tw_writeErr tw); done.
  - done.
Qed.

Lemma runHandler_transport r p w :
  writersChanged w (runHandler (transportWriter r) p w).2.
Proof.
  destruct (transportWriter_frame r) as (HA & HW & HS & HI & HM).
  revert w. induction p as [err|v|h k IH|p k IH|k IH|meta k IH]; intros w;
    cbn -[transportWriter]; try done.
  - apply frame_bind; [apply _|apply HA|]. intros _ w1.
    apply frame_bind; [apply _|apply IH|]. by intros [cs e] w2.
  - apply frame_bind; [apply _|apply HW|]. intros x w1.
    apply frame_bind; [apply _|apply IH|]. by intros [cs e] w2.
  - apply frame_bind; [apply _|apply HS|]. intros _ w1.
    apply frame_bind; [apply _|apply IH|]. by intros [cs e] w2.
  - apply frame_bind; [apply _|apply HI|]. intros [|] w1; [|apply IH].
    apply frame_bind; [apply _|apply HM|]. intros _ w2.
    apply frame_bind; [apply _|apply IH|]. by intros [cs e] w3.
Qed.

Lemma Handle_run m t ctx req resw h w :
  tracer m = Some t ->
  inboundRun (fun _ s => s) (serverSpan transport_GetPropagationCarrier m t req ∅ w) w
    (Plain.Handle m ctx req resw h w).
Proof.
  intros Ht. unfold Plain.Handle, serverSpan, extractStep. rewrite Ht. run.
  destruct (Tracer_Extract t _ _) as [parent xerr]. run.
  unfold UnaryHandler_Handle.
  match goal with |- context [runHandler ?rw ?p ?w1] =>
    pose proof (runHandler_transport resw p w1) as [ws Hw];
    destruct (runHandler rw p w1) as [hr w2] end.
  cbn in Hw. subst w2. exists hr.
  destruct hr as [[cs err]|v]; run; rewrite ?updateSpanWithError_run; run;
    rewrite ?alter_snoc; done.
Qed.

(** *** The pooled observer *)

#[local] Instance sameTrace_preorder : PreOrder sameTrace.
Proof.
  split; [done|]. intros w1 w2 w3 [? ?] [? ?]. split; congruence.
Qed.

Lemma writersChanged_sameTrace w w' : writersChanged w w' -> sameTrace w w'.
Proof. by intros [ws ->]. Qed.

Lemma writersChanged_flagAt l b w w' : writersChanged w w' -> flagAt l b w -> flagAt l b w'.
Proof. by intros [ws ->]. Qed.

Lemma load_ok (l : Loc) w x : heap w !! l = Some x -> Pooled.load l w = (Ok x, w).
Proof. intros E. unfold Pooled.load. run. by rewrite E. Qed.

Lemma store_ok (l : Loc) v w x :
  heap w !! l = Some x ->
  Pooled.store l v w = (Ok (), set_heap (fun h => <[l := v]> h) w).
Proof. intros E. unfold Pooled.store. run. by rewrite (load_ok _ _ _ E). Qed.

Lemma stored_lookup (l : Loc) v w x :
  heap w !! l = Some x -> heap (set_heap (fun h => <[l := v]> h) w) !! l = Some v.
Proof. intros E. cbn. apply list_lookup_insert_eq. by eapply lookup_lt_Some. Qed.

Lemma keeps_transport {A} l (c : M A) :
  (∀ w, writersChanged w (c w).2) -> keeps l id c.
Proof.
  intros Hc w b Hb. split; [by apply writersChanged_sameTrace|].
  destruct (c w).1; [|done]. eapply writersChanged_flagAt; [apply Hc|done].
Qed.

Lemma keeps_update {A} l (f : writer -> writer) (post : bool -> bool) (k : writer -> M A) :
  (∀ x, isApplicationError (f x) = post (isApplicationError x)) ->
  (∀ x w, writersChanged w (k x w).2) ->
  keeps l post (x ← Pooled.load l; Pooled.store l (f x);; x ← Pooled.load l; k x).
Proof.
  intros Hf Hk w b (x & Hx & Hb).
  pose proof (stored_lookup l (f x) w x Hx) as Hx'.
  unfold mbind, M_bind. rewrite (load_ok _ _ _ Hx), (store_ok _ _ _ _ Hx).
  cbv beta iota. rewrite (load_ok _ _ _ Hx').
  specialize (Hk (f x) (set_heap (fun h => <[l:=f x]> h) w)).
  split.
  - etrans; [|by apply writersChanged_sameTrace]. done.
  - destruct (k _ _).1; [|done]. eapply writersChanged_flagAt; [done|].
    exists (f x). by rewrite Hf, Hb.
Qed.

Lemma writer_SetApplicationError_keeps l :
  keeps l (fun _ => true) (Pooled.writer_SetApplicationError l).
Proof.
  apply (keeps_update l _ (fun _ => true)
           (fun x => rw_SetApplicationError (transportWriter (ResponseWriter x)))); [done|].
  intros x w. apply transportWriter_frame.
Qed.

Lemma writer_Write_keeps l p : keeps l id (Pooled.writer_Write l p).
Proof.
  apply (keeps_update l _ id (fun x => rw_Write (transportWriter (ResponseWriter x)) p)); [done|].
  intros x w. apply transportWriter_frame.
Qed.

Lemma writer_SetApplicationErrorMeta_keeps l meta :
  keeps l id (Pooled.writer_SetApplicationErrorMeta l meta).
Proof.
  unfold Pooled.writer_SetApplicationErrorMeta. destruct meta as [a|]; cbn [isNil].
  - apply (keeps_update l _ id
      (fun x => ok ← rw_isMetaSetter (transportWriter (ResponseWriter x));
                if ok : bool
                then rw_SetApplicationErrorMeta (transportWriter (ResponseWriter x)) (Some a)
                else mret ())); [done|].
    intros x w. apply frame_bind; [apply _|apply transportWriter_frame|].
    intros [|] w1; [apply transportWriter_frame|done].
  - intros w b Hb. by split.
Qed.

Lemma writer_AddHeaders_keeps l h : keeps l id (Pooled.writer_AddHeaders l h).
Proof.
  intros w b (x & Hx & Hb). unfold Pooled.writer_AddHeaders, mbind, M_bind.
  rewrite (load_ok _ _ _ Hx).
  apply (keeps_transport l (rw_AddHeaders (transportWriter (ResponseWriter x)) h)).
  - intros w0. apply transportWriter_frame.
  - by exists x.
Qed.

Lemma runHandler_writer l p w b :
  flagAt l b w ->
  sameTrace w (runHandler (Pooled.writerMethods l) p w).2 ∧
  match (runHandler (Pooled.writerMethods l) p w).1 with
  | Ok a => flagAt l (b || calledSetApplicationError a.1) (runHandler (Pooled.writerMethods l) p w).2
  | Panic _ => True
  end.
Proof.
  revert w b. induction p as [err|v|h k IH|p k IH|k IH|meta k IH]; intros w b Hb.
  - cbn. by rewrite orb_false_r.
  - done.
  - cbn -[Pooled.writer_AddHeaders]. unfold mbind, M_bind.
    destruct (writer_AddHeaders_keeps l h w b Hb) as [Ht Hf].
    destruct (Pooled.writer_AddHeaders l h w) as [[[]|v] w1]; [|done].
    destruct (IH w1 b Hf) as [Ht' Hf'].
    destruct (runHandler _ k w1) as [[[cs e]|v] w2]; cbn in *; (split; [by etrans|done]).
  - cbn -[Pooled.writer_Write]. unfold mbind, M_bind.
    destruct (writer_Write_keeps l p w b Hb) as [Ht Hf].
    destruct (Pooled.writer_Write l p w) as [[r|v] w1]; [|done].
    destruct (IH r.1 r.2 w1 b Hf) as [Ht' Hf'].
    destruct (runHandler _ (k r.1 r.2) w1) as [[[cs e]|v] w2]; cbn in *; (split; [by etrans|done]).
  - cbn -[Pooled.writer_SetApplicationError]. unfold mbind, M_bind.
    destruct (writer_SetApplicationError_keeps l w b Hb) as [Ht Hf].
    destruct (Pooled.writer_SetApplicationError l w) as [[[]|v] w1]; [|done].
    destruct (IH w1 true Hf) as [Ht' Hf'].
    destruct (runHandler _ k w1) as [[[cs e]|v] w2]; cbn in *; (split; [by etrans|]); [|done].
    by rewrite orb_true_r.
  - cbn -[Pooled.writer_SetApplicationErrorMeta]. unfold mbind, M_bind, mret, M_ret.
    destruct (writer_SetApplicationErrorMeta_keeps l meta w b Hb) as [Ht Hf].
    destruct (Pooled.writer_SetApplicationErrorMeta l meta w) as [[[]|v] w1]; [|done].
    destruct (IH w1 b Hf) as [Ht' Hf'].
    destruct (runHandler _ k w1) as [[[cs e]|v] w2]; cbn in *; (split; [by etrans|done]).
Qed.

Lemma insert_snoc {A} (l : list A) (x y : A) : <[length l := y]> (l ++ [x]) = l ++ [y].
Proof.
  replace (length l) with (length l + 0)%nat by lia.
  by rewrite insert_app_r.
Qed.

Lemma newWriter_cases rw w :
  sameTrace w (Pooled.newWriter rw w).2 ∧
  match (Pooled.newWriter rw w).1 with
  | Ok l => heap (Pooled.newWriter rw w).2 !! l = Some (Pooled.freshWriter rw)
  | Panic v => ¬ Pooled.poolValid w
  end.
Proof.
  unfold Pooled.newWriter, Pooled.writerPool_Get, Pooled.writerPool_New, Pooled.store,
    Pooled.load.
  run. destruct (pool w !! hd 0%nat (poolChoices w)) as [l|] eqn:Hp; run.
  - destruct (heap w !! l) as [x|] eqn:Hl; run.
    + split; [done|]. apply list_lookup_insert_eq. by eapply lookup_lt_Some.
    + split; [done|]. intros Hv. unfold Pooled.poolValid in Hv.
      rewrite Forall_lookup in Hv. apply Hv in Hp. apply lookup_ge_None in Hl. lia.
  - rewrite lookup_snoc. run. split; [done|]. rewrite insert_snoc. apply lookup_snoc.
Qed.

Lemma Pooled_Handle_run m t ctx req resw h w :
  tracer m = Some t ->
  let s0 := serverSpan tchannel_GetPropagationCarrier m t req CommonTracingTags w in
  let x := Pooled.Handle m ctx req resw h w in
  inboundRun observe s0 w x ∨
  (¬ Pooled.poolValid w ∧ (∃ v, x.1 = Panic v) ∧
   downstream x.2 = downstream w ∧ spans x.2 = spans w ++ [span_Finish s0]).
Proof.
  intros Ht. unfold Pooled.Handle, serverSpan, extractStep. rewrite Ht. run.
  destruct (Tracer_Extract t _ _) as [parent xerr]. run.
  match goal with |- context [Pooled.newWriter resw ?w1] =>
    pose proof (newWriter_cases resw w1) as [[Hs Hd] Hn];
    destruct (Pooled.newWriter resw w1) as [[l|v] w2] end; cbn in Hs, Hd, Hn.
  - left. unfold UnaryHandler_Handle.
    match goal with |- context [runHandler ?rw ?p w2] =>
      destruct (runHandler_writer l p w2 false) as [[Hs' Hd'] Hf];
        [by exists (Pooled.freshWriter resw)|];
      destruct (runHandler rw p w2) as [hr w3] end.
    cbn in Hs', Hd', Hf. exists hr. destruct hr as [[cs err]|v]; run.
    + destruct Hf as (x & Hx & Hb).
      erewrite load_ok by (cbn; exact Hx). cbn in Hb. unfold observe, calledSetApplicationError in *. rewrite <- Hb.
      destruct (isApplicationError x); run; rewrite updateSpanWithError_run; run;
        rewrite Hs', Hs, Hd', Hd, ?alter_snoc; done.
    + rewrite Hs', Hs, Hd', Hd, ?alter_snoc; done.
  - right. run. rewrite Hs, Hd, alter_snoc. repeat split; try done. by exists v.
Qed.

Lemma Pooled_Call_run m t ctx req out w :
  tracer m = Some t ->
  outboundRun unaryOutcome (fun o => classifyOutbound (outcome_response o) (outcome_err o))
    (clientSpan m t ctx req CommonTracingTags w)
    (injectStep tchannel_GetPropagationCarrier m t ctx (Procedure req) w).2 w
    (Pooled.Call m ctx req out w).
Proof.
  intros Ht. unfold Pooled.Call, clientSpan, injectStep. rewrite Ht. run.
  rewrite lookup_snoc. run.
  destruct (Tracer_Inject t _ _ _) as [hs [e|]]; run.
  - by rewrite !alter_snoc.
  - match goal with |- context [out ?c ?r] => exists (out c r); destruct (out c r) as [[res err]|v] end;
      run; rewrite ?updateSpanWithOutboundError_run; run; rewrite ?alter_snoc; done.
Qed.

(** *** A nil tracer *)

Lemma nil_tracer_runs m :
  tracer m = None ->
  (∀ ctx req resw h w, Plain.Handle m ctx req resw h w = (Panic NilDereference, w)) ∧
  (∀ ctx req out w, Plain.Call m ctx req out w = (Panic NilDereference, w)) ∧
  (∀ ctx req h w, Plain.HandleOneway m ctx req h w = (Panic NilDereference, w)) ∧
  (∀ ctx req out w, Plain.CallOneway m ctx req out w = (Panic NilDereference, w)) ∧
  (∀ s h w, Plain.HandleStream m s h w = (Panic NilDereference, w)) ∧
  (∀ ctx req out w, Plain.CallStream m ctx req out w = (Panic NilDereference, w)) ∧
  (∀ ctx req resw h w, Pooled.Handle m ctx req resw h w = (Panic NilDereference, w)) ∧
  (∀ ctx req out w, Pooled.Call m ctx req out w = (Panic NilDereference, w)).
Proof.
  intros Ht.
  repeat split; intros;
    unfold Plain.Handle, Plain.Call, Plain.HandleOneway, Plain.CallOneway,
      Plain.HandleStream, Plain.CallStream, Pooled.Handle, Pooled.Call;
    rewrite Ht; run; done.
Qed.

(** The four entry points the pooled revision leaves unimplemented panic
    at once: no span, no downstream invocation. *)
Lemma Pooled_stubs_panic (m : Interceptor) (w : World) :
  (∀ ctx req h, Pooled.HandleOneway m ctx req h w = (Panic (PanicString "implement me"), w)) ∧
  (∀ ctx req out, Pooled.CallOneway m ctx req out w = (Panic (PanicString "implement me"), w)) ∧
  (∀ s h, Pooled.HandleStream m s h w = (Panic (PanicString "implement me"), w)) ∧
  (∀ ctx req out, Pooled.CallStream m ctx req out w = (Panic (PanicString "implement me"), w)).
Proof. done. Qed.

(** *** Reading the trace *)

Lemma tag_new w w' s k :
  spans w' = spans w ++ [s] -> tag w' (length (spans w)) k = sp_tags s !! k.
Proof. intros E. unfold tag. by rewrite E, lookup_snoc. Qed.

Lemma answered_inv w w' o hr :
  answered w w' o -> downstream w' = downstream w ++ [hr] -> hr = Ok o.
Proof.
  unfold answered. intros -> E. apply app_inj_tail in E as [_ E]. done.
Qed.

Lemma answered_not_idle w w' o : answered w w' o -> downstream w' ≠ downstream w.
Proof. unfold answered. intros ->. apply snoc_neq. Qed.

Lemma classifyError_status e s :
  isStatus e = true ->
  sp_tags (span_Finish (classifyError (Some e) s)) =
  <["error.type" := VString (Code_String (Status_Code (FromError (Some e))))]>
    (<["rpc.yarpc.status_code" := VString (Code_String (Status_Code (FromError (Some e))))]>
       (<["error" := VBool true]> (sp_tags s))).
Proof. intros E. unfold classifyError. by rewrite E. Qed.

Lemma classifyError_raw e s :
  isStatus e = false ->
  sp_tags (span_Finish (classifyError (Some e) s)) =
  <["error.type" := VString "unknown_internal_yarpc"]> (<["error" := VBool true]> (sp_tags s)).
Proof. intros E. unfold classifyError. by rewrite E. Qed.

Lemma classifyOutbound_status res e s :
  isStatus e = true ->
  sp_tags (span_Finish (classifyOutbound res (Some e) s)) =
  <["error.type" := VString (Code_String (Status_Code (FromError (Some e))))]>
    (<["rpc.yarpc.status_code" := VString (Code_String (Status_Code (FromError (Some e))))]>
       (<["error" := VBool true]> (sp_tags s))).
Proof. intros E. unfold classifyOutbound. cbn. by rewrite E. Qed.

Lemma classifyOutbound_raw res e s :
  isStatus e = false ->
  sp_tags (span_Finish (classifyOutbound res (Some e) s)) =
  <["error.type" := VString (if default false (ApplicationError <$> res)
                             then "application_error" else "unknown_internal_yarpc")]>
    (<["error" := VBool true]> (sp_tags s)).
Proof.
  intros E. unfold classifyOutbound. cbn. rewrite E.
  by destruct (default false (ApplicationError <$> res)).
Qed.

Lemma classifyOutbound_application_error res s :
  ApplicationError res = true ->
  sp_tags (span_Finish (classifyOutbound (Some res) None s)) =
  <["error.type" := VString "application_error"]> (<["error" := VBool true]> (sp_tags s)).
Proof. intros E. unfold classifyOutbound. cbn. by rewrite E. Qed.

Lemma status_tags_lookup (c : TagValue) (tags : gmap string TagValue) :
  let tags' := <["error.type" := c]>
                 (<["rpc.yarpc.status_code" := c]> (<["error" := VBool true]> tags)) in
  tags' !! "error" = Some (VBool true) ∧
  tags' !! "rpc.yarpc.status_code" = Some c ∧
  tags' !! "error.type" = Some c.
Proof. cbn. by simplify_map_eq. Qed.

(** *** What an answered call looks like *)

Lemma inbound_answered obs s0 w r w' o :
  inboundRun obs s0 w (r, w') -> answered w w' o ->
  r = Ok (outcome_err o) ∧
  spans w' = spans w ++
    [span_Finish (classifyError (outcome_err o) (obs (outcome_calls o) s0))].
Proof.
  intros (hr & Hd & Hr & Hs) Ha. cbn in Hd, Hr, Hs.
  apply (answered_inv _ _ _ _ Ha) in Hd. destruct hr as [[cs err]|v]; [|done].
  cbn in Hd. injection Hd as <-. by subst r.
Qed.

Lemma outbound_answered {A} (toOutcome : option A * option error -> Outcome) classify
    s0 ie w r w' o :
  outboundRun toOutcome classify s0 ie w (r, w') -> answered w w' o ->
  ∃ a, r = Ok a ∧ toOutcome a = o ∧
       spans w' = spans w ++ [span_Finish (classify o s0)].
Proof.
  intros HR Ha. destruct ie as [ie|]; cbn in HR.
  - destruct HR as (Hd & _). by apply answered_not_idle in Ha.
  - destruct HR as (hr & Hd & Hr & Hs).
    apply (answered_inv _ _ _ _ Ha) in Hd. destruct hr as [a|v]; [|done].
    cbn in Hd. injection Hd as Hd. exists a. by rewrite <- Hd.
Qed.

Lemma nil_tracer_idle_false {A} w (r : Result A) w' o :
  (Panic NilDereference, w) = (r, w') -> answered w w' o -> False.
Proof. intros [= <- <-] Ha. by apply answered_not_idle in Ha. Qed.

(** The eight entry points, once they answered: the tracer was not nil,
    the downstream answer is handed back, and the span the call started is
    classified by that answer and finished. *)
Lemma entry_points_answered (m : Interceptor) (w w' : World) (o : Outcome) :
  answered w w' o ->
  (∀ ctx req resw h r, Plain.Handle m ctx req resw h w = (r, w') ->
     ∃ t, tracer m = Some t ∧ r = Ok (outcome_err o) ∧
     spans w' = spans w ++
       [span_Finish (classifyError (outcome_err o)
          (serverSpan transport_GetPropagationCarrier m t req ∅ w))]) ∧
  (∀ ctx req out r, Plain.Call m ctx req out w = (r, w') ->
     ∃ t, tracer m = Some t ∧ r = Ok (outcome_response o, outcome_err o) ∧
     spans w' = spans w ++
       [span_Finish (classifyOutbound (outcome_response o) (outcome_err o)
          (clientSpan m t ctx req ∅ w))]) ∧
  (∀ ctx req h r, Plain.HandleOneway m ctx req h w = (r, w') ->
     ∃ t, tracer m = Some t ∧ r = Ok (outcome_err o) ∧
     spans w' = spans w ++
       [span_Finish (classifyError (outcome_err o)
          (serverSpan transport_GetPropagationCarrier m t req ∅ w))]) ∧
  (∀ ctx req out r, Plain.CallOneway m ctx req out w = (r, w') ->
     ∃ t, tracer m = Some t ∧ (∃ ack, r = Ok (ack, outcome_err o)) ∧
     spans w' = spans w ++
       [span_Finish (classifyError (outcome_err o) (clientSpan m t ctx req ∅ w))]) ∧
  (∀ s h r, Plain.HandleStream m s h w = (r, w') ->
     ∃ t, tracer m = Some t ∧ r = Ok (outcome_err o) ∧
     spans w' = spans w ++
       [span_Finish (classifyError (outcome_err o)
          (serverSpan transport_GetPropagationCarrier m t
             (ToRequest (Meta (Stream_Request s))) ∅ w))]) ∧
  (∀ ctx req out r, Plain.CallStream m ctx req out w = (r, w') ->
     ∃ t, tracer m = Some t ∧ (∃ stream, r = Ok (stream, outcome_err o)) ∧
     spans w' = spans w ++
       [span_Finish (classifyError (outcome_err o)
          (clientSpan m t ctx (ToRequest (Meta req)) ∅ w))]) ∧
  (∀ ctx req resw h r, Pooled.Handle m ctx req resw h w = (r, w') ->
     ∃ t, tracer m = Some t ∧ r = Ok (outcome_err o) ∧
     spans w' = spans w ++
       [span_Finish (classifyError (outcome_err o)
          (observe (outcome_calls o)
             (serverSpan tchannel_GetPropagationCarrier m t req CommonTracingTags w)))]) ∧
  (∀ ctx req out r, Pooled.Call m ctx req out w = (r, w') ->
     ∃ t, tracer m = Some t ∧ r = Ok (outcome_response o, outcome_err o) ∧
     spans w' = spans w ++
       [span_Finish (classifyOutbound (outcome_response o) (outcome_err o)
          (clientSpan m t ctx req CommonTracingTags w))]).
Proof.
  intros Ha. destruct (tracer m) as [t|] eqn:Ht.
  2: { destruct (nil_tracer_runs m Ht) as (N1 & N2 & N3 & N4 & N5 & N6 & N7 & N8).
       split_and!; intros until r;
         rewrite ?N1, ?N2, ?N3, ?N4, ?N5, ?N6, ?N7, ?N8; intros Hrun;
         exfalso; eapply nil_tracer_idle_false; eauto. }
  split_and!; intros until r; intros Hrun; exists t; (split; [done|]).
  - pose proof (Handle_run m t ctx req resw h w Ht) as HR. rewrite Hrun in HR.
    by apply (inbound_answered _ _ _ _ _ _ HR).
  - pose proof (Call_run m t ctx req out w Ht) as HR. rewrite Hrun in HR.
    destruct (outbound_answered _ _ _ _ _ _ _ _ HR Ha) as ([res err] & -> & <- & Hs). done.
  - pose proof (HandleOneway_run m t ctx req h w Ht) as HR. rewrite Hrun in HR.
    by apply (inbound_answered _ _ _ _ _ _ HR).
  - pose proof (CallOneway_run m t ctx req out w Ht) as HR. rewrite Hrun in HR.
    destruct (outbound_answered _ _ _ _ _ _ _ _ HR Ha) as ([ack err] & -> & <- & Hs).
    split; [by exists ack|done].
  - pose proof (HandleStream_run m t s h w Ht) as HR. rewrite Hrun in HR.
    by apply (inbound_answered _ _ _ _ _ _ HR).
  - pose proof (CallStream_run m t ctx req out w Ht) as HR. rewrite Hrun in HR.
    destruct (outbound_answered _ _ _ _ _ _ _ _ HR Ha) as ([cs err] & -> & <- & Hs).
    split; [by exists cs|done].
  - destruct (Pooled_Handle_run m t ctx req resw h w Ht) as [HR|(_ & _ & Hd & _)];
      rewrite Hrun in *.
    + by apply (inbound_answered _ _ _ _ _ _ HR).
    + by apply answered_not_idle in Ha.
  - pose proof (Pooled_Call_run m t ctx req out w Ht) as HR. rewrite Hrun in HR.
    destruct (outbound_answered _ _ _ _ _ _ _ _ HR Ha) as ([res err] & -> & <- & Hs). done.
Qed.

(** ** The claims *)

(** C1.  In every call shape and direction, an outcome whose error is a
    structured status leaves the span with [error = true] and with both
    [rpc.yarpc.status_code] and [error.type] equal to the string form of the
    status code.  The outcome is what the downstream handler or outbound
    answered; the span is the one the call started. *)
Theorem status_outcome_tags_span (m : Interceptor) (w w' : World) (o : Outcome) (e : error) :
  answered w w' o -> outcome_err o = Some e -> isStatus e = true ->
  (∀ ctx req resw h r, Plain.Handle m ctx req resw h w = (r, w') ->
     statusTagged w' (length (spans w)) e) ∧
  (∀ ctx req out r, Plain.Call m ctx req out w = (r, w') ->
     statusTagged w' (length (spans w)) e) ∧
  (∀ ctx req h r, Plain.HandleOneway m ctx req h w = (r, w') ->
     statusTagged w' (length (spans w)) e) ∧
  (∀ ctx req out r, Plain.CallOneway m ctx req out w = (r, w') ->
     statusTagged w' (length (spans w)) e) ∧
  (∀ s h r, Plain.HandleStream m s h w = (r, w') ->
     statusTagged w' (length (spans w)) e) ∧
  (∀ ctx req out r, Plain.CallStream m ctx req out w = (r, w') ->
     statusTagged w' (length (spans w)) e) ∧
  (∀ ctx req resw h r, Pooled.Handle m ctx req resw h w = (r, w') ->
     statusTagged w' (length (spans w)) e) ∧
  (∀ ctx req out r, Pooled.Call m ctx req out w = (r, w') ->
     statusTagged w' (length (spans w)) e).
Proof.
  intros Ha He Hst.
  destruct (entry_points_answered m w w' o Ha) as (E1 & E2 & E3 & E4 & E5 & E6 & E7 & E8).
  rewrite He in *.
  split_and!; intros until r; intros Hrun;
    [ apply E1 in Hrun | apply E2 in Hrun | apply E3 in Hrun | apply E4 in Hrun
    | apply E5 in Hrun | apply E6 in Hrun | apply E7 in Hrun | apply E8 in Hrun ];
    destruct Hrun as (t & _ & _ & Hs); unfold statusTagged;
    rewrite !(tag_new _ _ _ _ Hs), ?classifyError_status, ?classifyOutbound_status by done;
    apply status_tags_lookup.
Qed.

(** C2, as the code has it.  An outbound unary call whose outcome is a
    non-nil error that is not a structured status leaves the span with
    [error = true]; its [error.type] is ["unknown_internal_yarpc"] when the
    response is nil or its application-error flag is false, and
    ["application_error"] when the flag is set. *)
Theorem raw_outcome_tags_span (m : Interceptor) (w w' : World) (o : Outcome) (e : error) :
  answered w w' o -> outcome_err o = Some e -> isStatus e = false ->
  let errorType :=
    VString (if default false (ApplicationError <$> outcome_response o)
             then "application_error" else "unknown_internal_yarpc") in
  (∀ ctx req out r, Plain.Call m ctx req out w = (r, w') ->
     tag w' (length (spans w)) "error" = Some (VBool true) ∧
     tag w' (length (spans w)) "error.type" = Some errorType) ∧
  (∀ ctx req out r, Pooled.Call m ctx req out w = (r, w') ->
     tag w' (length (spans w)) "error" = Some (VBool true) ∧
     tag w' (length (spans w)) "error.type" = Some errorType).
Proof.
  intros Ha He Hst errorType.
  destruct (entry_points_answered m w w' o Ha) as (_ & E2 & _ & _ & _ & _ & _ & E8).
  rewrite He in *.
  split; intros until r; intros Hrun; [apply E2 in Hrun|apply E8 in Hrun];
    destruct Hrun as (t & _ & _ & Hs);
    rewrite !(tag_new _ _ _ _ Hs), classifyOutbound_raw by done;
    by simplify_map_eq.
Qed.

(** C5.  An outbound unary call whose downstream answers a nil error and a
    response with the application-error flag set leaves the span with
    [error = true] and [error.type = "application_error"], and returns that
    response with a nil error. *)
Theorem application_error_response_tags_span (m : Interceptor) (w w' : World)
    (o : Outcome) (res : Response) :
  answered w w' o -> outcome_err o = None -> outcome_response o = Some res ->
  ApplicationError res = true ->
  (∀ ctx req out r, Plain.Call m ctx req out w = (r, w') ->
     r = Ok (Some res, None) ∧
     tag w' (length (spans w)) "error" = Some (VBool true) ∧
     tag w' (length (spans w)) "error.type" = Some (VString "application_error")) ∧
  (∀ ctx req out r, Pooled.Call m ctx req out w = (r, w') ->
     r = Ok (Some res, None) ∧
     tag w' (length (spans w)) "error" = Some (VBool true) ∧
     tag w' (length (spans w)) "error.type" = Some (VString "application_error")).
Proof.
  intros Ha He Hres Happ.
  destruct (entry_points_answered m w w' o Ha) as (_ & E2 & _ & _ & _ & _ & _ & E8).
  rewrite He, Hres in *.
  split; intros until r; intros Hrun; [apply E2 in Hrun|apply E8 in Hrun];
    destruct Hrun as (t & _ & -> & Hs); (split; [done|]);
    rewrite !(tag_new _ _ _ _ Hs), classifyOutbound_application_error by done;
    by simplify_map_eq.
Qed.

(** C10.  In the pooled revision, an inbound unary call whose handler
    called [SetApplicationError] on the writer it was given and returned a
    nil error hands back nil and leaves the span with exactly one tag more
    than it was started with: [error.type = "application_error"].  The
    [error] tag is as the span factory left it. *)
Theorem inbound_application_error_sets_type_only (m : Interceptor) (ctx : Context)
    (req : Request) (resw : ResponseWriterRef) (h : UnaryHandler)
    (w w' : World) (r : Result (option error)) (o : Outcome) :
  Pooled.Handle m ctx req resw h w = (r, w') ->
  answered w w' o -> outcome_err o = None ->
  calledSetApplicationError (outcome_calls o) = true ->
  r = Ok None ∧
  ∃ s, spans w' = spans w ++ [s] ∧
       sp_tags s = <["error.type" := VString "application_error"]>
                     (standardTags (Transport req) req CommonTracingTags) ∧
       sp_tags s !! "error" = standardTags (Transport req) req CommonTracingTags !! "error" ∧
       sp_finished s = 1%nat.
Proof.
  intros Hrun Ha He Hc.
  destruct (entry_points_answered m w w' o Ha) as (_ & _ & _ & _ & _ & _ & E7 & _).
  apply E7 in Hrun as (t & _ & -> & Hs). rewrite He in *. split; [done|].
  eexists. split; [exact Hs|]. unfold observe. rewrite Hc. cbn.
  split_and!; [done| |done]. by simplify_map_eq.
Qed.

(** *** The span a call started, whatever the call met *)

Lemma classifyError_sameSpan err s :
  sameSpan (classifyError err s) s ∧ sp_finished (classifyError err s) = sp_finished s.
Proof. unfold classifyError. destruct err as [e|]; [destruct (isStatus e)|]; done. Qed.

Lemma classifyOutbound_sameSpan res err s :
  sameSpan (classifyOutbound res err s) s ∧
  sp_finished (classifyOutbound res err s) = sp_finished s.
Proof.
  unfold classifyOutbound.
  destruct (isNil err && _), (IsStatus err), (default false (ApplicationError <$> res)); done.
Qed.

Lemma observe_sameSpan cs s :
  sameSpan (observe cs s) s ∧ sp_finished (observe cs s) = sp_finished s.
Proof. unfold observe. by destruct (calledSetApplicationError cs). Qed.

Lemma inbound_span obs s0 w x :
  (∀ cs s, sameSpan (obs cs s) s ∧ sp_finished (obs cs s) = sp_finished s) ->
  inboundRun obs s0 w x ->
  ∃ s, spans x.2 = spans w ++ [s] ∧ sameSpan s s0 ∧ sp_finished s = S (sp_finished s0).
Proof.
  intros Ho (hr & _ & _ & Hs). eexists. split; [exact Hs|].
  destruct hr as [[cs err]|v]; [|done]. cbn [fst snd].
  destruct (classifyError_sameSpan err (obs cs s0)) as [(?&?&?&?) ?].
  destruct (Ho cs s0) as [(?&?&?&?) ?].
  unfold sameSpan. cbn. split_and!; congruence.
Qed.

Lemma outbound_span {A} (toOutcome : option A * option error -> Outcome) classify
    s0 ie w x :
  (∀ o s, sameSpan (classify o s) s ∧ sp_finished (classify o s) = sp_finished s) ->
  outboundRun toOutcome classify s0 ie w x ->
  ∃ s, spans x.2 = spans w ++ [s] ∧ sameSpan s s0 ∧ sp_finished s = S (sp_finished s0).
Proof.
  intros Hc HR. destruct ie as [e|]; cbn in HR.
  - destruct HR as (_ & _ & Hs). eexists. split; [exact Hs|]. done.
  - destruct HR as (hr & _ & _ & Hs). eexists. split; [exact Hs|].
    destruct hr as [a|v]; [|done].
    destruct (Hc (toOutcome a) s0) as [(?&?&?&?) ?].
    unfold sameSpan. cbn. split_and!; congruence.
Qed.

(** The span each entry point starts, classifies and finishes, for an
    interceptor whose tracer is [t]. *)
Lemma entry_points_span (m : Interceptor) (t : Tracer) (w : World) :
  tracer m = Some t ->
  let spanOf (s0 : Span) (w' : World) :=
    ∃ s, spans w' = spans w ++ [s] ∧ sameSpan s s0 ∧ sp_finished s = 1%nat in
  (∀ ctx req resw h,
     spanOf (serverSpan transport_GetPropagationCarrier m t req ∅ w)
       (Plain.Handle m ctx req resw h w).2) ∧
  (∀ ctx req out,
     spanOf (clientSpan m t ctx req ∅ w) (Plain.Call m ctx req out w).2) ∧
  (∀ ctx req h,
     spanOf (serverSpan transport_GetPropagationCarrier m t req ∅ w)
       (Plain.HandleOneway m ctx req h w).2) ∧
  (∀ ctx req out,
     spanOf (clientSpan m t ctx req ∅ w) (Plain.CallOneway m ctx req out w).2) ∧
  (∀ s h,
     spanOf (serverSpan transport_GetPropagationCarrier m t
               (ToRequest (Meta (Stream_Request s))) ∅ w)
       (Plain.HandleStream m s h w).2) ∧
  (∀ ctx req out,
     spanOf (clientSpan m t ctx (ToRequest (Meta req)) ∅ w)
       (Plain.CallStream m ctx req out w).2) ∧
  (∀ ctx req resw h,
     spanOf (serverSpan tchannel_GetPropagationCarrier m t req CommonTracingTags w)
       (Pooled.Handle m ctx req resw h w).2) ∧
  (∀ ctx req out,
     spanOf (clientSpan m t ctx req CommonTracingTags w) (Pooled.Call m ctx req out w).2).
Proof.
  intros Ht spanOf. unfold spanOf. split_and!; intros.
  - eapply inbound_span; [|by apply Handle_run]. done.
  - eapply outbound_span; [|by apply Call_run].
    intros. apply classifyOutbound_sameSpan.
  - eapply inbound_span; [|by apply HandleOneway_run]. done.
  - eapply outbound_span; [|by apply CallOneway_run].
    intros. apply classifyError_sameSpan.
  - eapply inbound_span; [|by apply HandleStream_run]. done.
  - eapply outbound_span; [|by apply CallStream_run].
    intros. apply classifyError_sameSpan.
  - destruct (Pooled_Handle_run m t ctx req resw h w Ht) as [HR|(_ & _ & _ & Hs)].
    + eapply inbound_span; [|exact HR]. apply observe_sameSpan.
    + eexists. split; [exact Hs|]. done.
  - eapply outbound_span; [|by apply Pooled_Call_run].
    intros. apply classifyOutbound_sameSpan.
Qed.

(** C6.  Every inbound call starts one span and finishes it exactly once,
    whatever the handler does (return nil, return an error, panic); the span
    is a child of the context the tracer extracted from the request, and a
    root when the tracer found none.  The spans of other calls are not
    touched. *)
Theorem inbound_span_finished_once (m : Interceptor) (t : Tracer) (w : World) :
  tracer m = Some t ->
  (∀ ctx req resw h,
     finishedOnce w (Plain.Handle m ctx req resw h w).2
       (extractStep transport_GetPropagationCarrier m t req)) ∧
  (∀ ctx req h,
     finishedOnce w (Plain.HandleOneway m ctx req h w).2
       (extractStep transport_GetPropagationCarrier m t req)) ∧
  (∀ s h,
     finishedOnce w (Plain.HandleStream m s h w).2
       (extractStep transport_GetPropagationCarrier m t
          (ToRequest (Meta (Stream_Request s))))) ∧
  (∀ ctx req resw h,
     finishedOnce w (Pooled.Handle m ctx req resw h w).2
       (extractStep tchannel_GetPropagationCarrier m t req)).
Proof.
  intros Ht.
  destruct (entry_points_span m t w Ht) as (E1 & _ & E3 & _ & E5 & _ & E7 & _).
  split_and!; intros;
    [ destruct (E1 ctx req resw h) as (s0 & Hs & (_ & _ & Hp & _) & Hf)
    | destruct (E3 ctx req h) as (s0 & Hs & (_ & _ & Hp & _) & Hf)
    | destruct (E5 s h) as (s0 & Hs & (_ & _ & Hp & _) & Hf)
    | destruct (E7 ctx req resw h) as (s0 & Hs & (_ & _ & Hp & _) & Hf) ];
    by exists s0.
Qed.

(** C3, as the code has it.  When the tracer's inject step fails, an
    outbound call leaves its span with [error = true] on top of the tags the
    span was started with, and with one log record that names the event
    ["error"] and carries the error's message.  The interceptor sets no
    [error.type] on this path. *)
Theorem inject_failure_marks_span (m : Interceptor) (t : Tracer) (ctx : Context)
    (w : World) (e : error) :
  tracer m = Some t ->
  (∀ req out,
     (injectStep transport_GetPropagationCarrier m t ctx (Procedure req) w).2 = Some e ->
     injectMarked w (Plain.Call m ctx req out w).2 e (standardTags (transport m) req ∅)) ∧
  (∀ req out,
     (injectStep transport_GetPropagationCarrier m t ctx (Procedure req) w).2 = Some e ->
     injectMarked w (Plain.CallOneway m ctx req out w).2 e (standardTags (transport m) req ∅)) ∧
  (∀ req out,
     (injectStep transport_GetPropagationCarrier m t ctx (Meta_Procedure (Meta req)) w).2
       = Some e ->
     injectMarked w (Plain.CallStream m ctx req out w).2 e
       (standardTags (transport m) (ToRequest (Meta req)) ∅)) ∧
  (∀ req out,
     (injectStep tchannel_GetPropagationCarrier m t ctx (Procedure req) w).2 = Some e ->
     injectMarked w (Pooled.Call m ctx req out w).2 e
       (standardTags (transport m) req CommonTracingTags)).
Proof.
  intros Ht. split_and!; intros req out Hi;
    [ pose proof (Call_run m t ctx req out w Ht) as HR
    | pose proof (CallOneway_run m t ctx req out w Ht) as HR
    | pose proof (CallStream_run m t ctx req out w Ht) as HR
    | pose proof (Pooled_Call_run m t ctx req out w Ht) as HR ];
    rewrite Hi in HR; destruct HR as (_ & _ & Hs);
    (eexists; split; [exact Hs|]); cbn; split_and!; try done; by simplify_map_eq.
Qed.

(** C4.  When the tracer's inject step fails, an outbound call of any
    shape does not invoke the downstream outbound, returns the injection
    error with a nil result, and leaves its span marked with [error = true]
    and finished. *)
Theorem inject_failure_short_circuits (m : Interceptor) (t : Tracer) (ctx : Context)
    (w : World) (e : error) :
  tracer m = Some t ->
  (∀ req out,
     (injectStep transport_GetPropagationCarrier m t ctx (Procedure req) w).2 = Some e ->
     shortCircuited w (Plain.Call m ctx req out w).2 e (Plain.Call m ctx req out w).1) ∧
  (∀ req out,
     (injectStep transport_GetPropagationCarrier m t ctx (Procedure req) w).2 = Some e ->
     shortCircuited w (Plain.CallOneway m ctx req out w).2 e
       (Plain.CallOneway m ctx req out w).1) ∧
  (∀ req out,
     (injectStep transport_GetPropagationCarrier m t ctx (Meta_Procedure (Meta req)) w).2
       = Some e ->
     shortCircuited w (Plain.CallStream m ctx req out w).2 e
       (Plain.CallStream m ctx req out w).1) ∧
  (∀ req out,
     (injectStep tchannel_GetPropagationCarrier m t ctx (Procedure req) w).2 = Some e ->
     shortCircuited w (Pooled.Call m ctx req out w).2 e (Pooled.Call m ctx req out w).1).
Proof.
  intros Ht. split_and!; intros req out Hi;
    [ pose proof (Call_run m t ctx req out w Ht) as HR
    | pose proof (CallOneway_run m t ctx req out w Ht) as HR
    | pose proof (CallStream_run m t ctx req out w Ht) as HR
    | pose proof (Pooled_Call_run m t ctx req out w Ht) as HR ];
    rewrite Hi in HR; destruct HR as (Hd & Hr & Hs);
    (split_and!; [done|done|]); (eexists; split; [exact Hs|]); cbn;
    (split; [by simplify_map_eq|done]).
Qed.

(** *** Construction *)

Lemma New_tracer_not_nil (p : Params) (w : World) :
  ∃ m, New p w = (Ok m, w) ∧ tracer m ≠ None ∧ transport m = Params_Transport p.
Proof.
  unfold New. destruct (Params_Tracer p) as [t|] eqn:Hp; cbn;
    (eexists; split; [done|]); cbn; by rewrite ?Hp.
Qed.

Lemma spanOf_startedBy t op start parent tags w w' :
  (∃ s, spans w' = spans w ++ [s] ∧ sameSpan s (startedSpan t op start parent tags) ∧
        sp_finished s = 1%nat) ->
  startedBy t w w'.
Proof.
  intros (s & Hs & (Hc & Ho & Hp & _) & _). exists s. split; [done|].
  by rewrite Hc, Ho, Hp.
Qed.

(** C8.  For parameters without a tracer, [New] reads the registered
    global tracer once, when the interceptor is built, and stores it: the
    interceptor's tracer is not nil, and in any later world, whatever tracer
    is registered by then, every entry point starts its span with the tracer
    that was stored, so that each of them has a span to work on. *)
Theorem New_resolves_global_tracer_once (p : Params) (w : World) :
  Params_Tracer p = None ->
  ∃ m, New p w = (Ok m, w) ∧
       tracer m = Some (globalTracer w) ∧
       ∀ w1 : World,
         (∀ ctx req resw h,
            startedBy (globalTracer w) w1 (Plain.Handle m ctx req resw h w1).2) ∧
         (∀ ctx req out,
            startedBy (globalTracer w) w1 (Plain.Call m ctx req out w1).2) ∧
         (∀ ctx req h,
            startedBy (globalTracer w) w1 (Plain.HandleOneway m ctx req h w1).2) ∧
         (∀ ctx req out,
            startedBy (globalTracer w) w1 (Plain.CallOneway m ctx req out w1).2) ∧
         (∀ s h,
            startedBy (globalTracer w) w1 (Plain.HandleStream m s h w1).2) ∧
         (∀ ctx req out,
            startedBy (globalTracer w) w1 (Plain.CallStream m ctx req out w1).2) ∧
         (∀ ctx req resw h,
            startedBy (globalTracer w) w1 (Pooled.Handle m ctx req resw h w1).2) ∧
         (∀ ctx req out,
            startedBy (globalTracer w) w1 (Pooled.Call m ctx req out w1).2).
Proof.
  intros Hp. unfold New. rewrite Hp. cbn.
  eexists. split; [done|]. split; [done|]. intros w1.
  match goal with |- context [Plain.Handle ?m] =>
    destruct (entry_points_span m (globalTracer w) w1 eq_refl)
      as (E1 & E2 & E3 & E4 & E5 & E6 & E7 & E8) end.
  split_and!; intros; eapply spanOf_startedBy;
    [ apply E1 | apply E2 | apply E3 | apply E4 | apply E5 | apply E6 | apply E7 | apply E8 ].
Qed.

(** *** The pool *)

#[local] Instance poolKept_preorder : PreOrder poolKept.
Proof.
  split; [done|]. intros w1 w2 w3 [? ?] [? ?]. split; congruence.
Qed.

Lemma writersChanged_poolKept w w' : writersChanged w w' -> poolKept w w'.
Proof. by intros [ws ->]. Qed.

Lemma load_poolKept l w : poolKept w (Pooled.load l w).2.
Proof. unfold Pooled.load. run. by destruct (heap w !! l). Qed.

Lemma store_poolKept l x w : poolKept w (Pooled.store l x w).2.
Proof.
  unfold Pooled.store, Pooled.load. run. destruct (heap w !! l); run; [|done].
  split; [done|]. cbn. apply length_insert.
Qed.

Lemma poolKept_valid w w' : poolKept w w' -> Pooled.poolValid w -> Pooled.poolValid w'.
Proof. unfold Pooled.poolValid. intros [-> ->]. done. Qed.

Lemma writer_methods_poolKept l :
  (∀ h w, poolKept w (Pooled.writer_AddHeaders l h w).2) ∧
  (∀ p w, poolKept w (Pooled.writer_Write l p w).2) ∧
  (∀ w, poolKept w (Pooled.writer_SetApplicationError l w).2) ∧
  (∀ meta w, poolKept w (Pooled.writer_SetApplicationErrorMeta l meta w).2).
Proof.
  pose proof (fun r => transportWriter_frame r) as HT.
  split_and!; intros;
    unfold Pooled.writer_AddHeaders, Pooled.writer_Write, Pooled.writer_SetApplicationError.
  - apply frame_bind; [apply _|apply load_poolKept|]. intros x w1.
    apply writersChanged_poolKept, HT.
  - apply frame_bind; [apply _|apply load_poolKept|]. intros x w1.
    apply frame_bind; [apply _|apply store_poolKept|]. intros _ w2.
    apply frame_bind; [apply _|apply load_poolKept|]. intros x' w3.
    apply writersChanged_poolKept, HT.
  - apply frame_bind; [apply _|apply load_poolKept|]. intros x w1.
    apply frame_bind; [apply _|apply store_poolKept|]. intros _ w2.
    apply frame_bind; [apply _|apply load_poolKept|]. intros x' w3.
    apply writersChanged_poolKept, HT.
  - unfold Pooled.writer_SetApplicationErrorMeta. destruct (isNil meta); [done|].
    apply frame_bind; [apply _|apply load_poolKept|]. intros x w1.
    apply frame_bind; [apply _|apply store_poolKept|]. intros _ w2.
    apply frame_bind; [apply _|apply load_poolKept|]. intros x' w3.
    apply frame_bind; [apply _|intros; apply writersChanged_poolKept, HT|].
    intros [|] w4; [apply writersChanged_poolKept, HT|done].
Qed.

Lemma newWriter_valid rw w :
  Pooled.poolValid w ->
  ∃ l w', Pooled.newWriter rw w = (Ok l, w') ∧
          heap w' !! l = Some (Pooled.freshWriter rw) ∧
          Pooled.poolValid w'.
Proof.
  intros Hv. unfold Pooled.newWriter, Pooled.writerPool_Get, Pooled.writerPool_New,
    Pooled.store, Pooled.load.
  run. destruct (pool w !! hd 0%nat (poolChoices w)) as [l|] eqn:Hp; run.
  - assert (l < length (heap w))%nat as Hl.
    { unfold Pooled.poolValid in Hv. rewrite Forall_lookup in Hv. by eapply Hv. }
    destruct (heap w !! l) as [x|] eqn:Hx; run.
    2: { apply lookup_ge_None in Hx. lia. }
    eexists _, _. split; [done|]. cbn. split; [by apply list_lookup_insert_eq|].
    unfold Pooled.poolValid. cbn. rewrite length_insert. by apply Forall_delete.
  - rewrite lookup_snoc. run. eexists _, _. split; [done|]. cbn.
    rewrite insert_snoc. split; [apply lookup_snoc|].
    unfold Pooled.poolValid in *. cbn. rewrite length_app. cbn.
    eapply Forall_impl; [exact Hv|]. intros; cbn in *; lia.
Qed.

Lemma poolStep_valid op w :
  Pooled.poolValid w ->
  match op with Pooled.Release l => (l < length (heap w))%nat | _ => True end ->
  Pooled.poolValid (Pooled.poolStep op w).
Proof.
  intros Hv Hr.
  destruct op as [rw|l h|l p|l|l meta|l]; cbn -[Pooled.newWriter
    Pooled.writer_AddHeaders Pooled.writer_Write Pooled.writer_SetApplicationError
    Pooled.writer_SetApplicationErrorMeta].
  - destruct (newWriter_valid rw w Hv) as (l & w' & -> & _ & Hv'). done.
  - eapply poolKept_valid; [apply writer_methods_poolKept|done].
  - eapply poolKept_valid; [apply writer_methods_poolKept|done].
  - eapply poolKept_valid; [apply writer_methods_poolKept|done].
  - eapply poolKept_valid; [apply writer_methods_poolKept|done].
  - unfold Pooled.poolValid in *. cbn. apply Forall_app. split; [done|].
    by apply Forall_singleton.
Qed.

Lemma poolRun_valid ops w :
  Pooled.poolValid w -> Pooled.releasesAllocated ops w ->
  Pooled.poolValid (Pooled.poolRun ops w).
Proof.
  revert w. induction ops as [|op ops IH]; intros w Hv Hr; [done|].
  destruct Hr as [Hop Hr]. cbn. apply IH; [|done]. by apply poolStep_valid.
Qed.

(** C9.  After any sequence of acquisitions, uses and releases of pooled
    writers, an acquisition yields a writer that wraps the response writer it
    was given, with the application-error flag false, no application-error
    metadata and a byte count of zero. *)
Theorem newWriter_yields_reset_writer (ops : list Pooled.PoolOp) (w0 : World)
    (rw : ResponseWriterRef) :
  Pooled.poolValid w0 -> Pooled.releasesAllocated ops w0 ->
  ∃ l w', Pooled.newWriter rw (Pooled.poolRun ops w0) = (Ok l, w') ∧
          heap w' !! l = Some {| ResponseWriter := rw; isApplicationError := false;
                                 applicationErrorMeta := None; responseSize := 0 |}.
Proof.
  intros Hv Hr.
  destruct (newWriter_valid rw (Pooled.poolRun ops w0)) as (l & w' & Hn & Hl & _).
  - by apply poolRun_valid.
  - by exists l, w'.
Qed.

(** ** Beyond the claims *)

(** *** What a call whose downstream panicked looks like *)

Lemma panicked_inv {A} (l : list (Result A)) (hr : Result A) v :
  l ++ [hr] = l ++ [Panic v] -> hr = Panic v.
Proof. intros E. by apply app_inj_tail in E as [_ E]. Qed.

Lemma inbound_panicked obs s0 w r w' v :
  inboundRun obs s0 w (r, w') -> downstream w' = downstream w ++ [Panic v] ->
  r = Panic v ∧ spans w' = spans w ++ [span_Finish s0].
Proof.
  intros (hr & Hd & Hr & Hs) Hp. cbn in Hd, Hr, Hs. rewrite Hd in Hp.
  apply panicked_inv in Hp. destruct hr as [a|v']; [done|].
  cbn in Hp. injection Hp as ->. by subst r.
Qed.

Lemma outbound_panicked {A} (toOutcome : option A * option error -> Outcome) classify
    s0 ie w r w' v :
  outboundRun toOutcome classify s0 ie w (r, w') ->
  downstream w' = downstream w ++ [Panic v] ->
  r = Panic v ∧ spans w' = spans w ++ [span_Finish s0].
Proof.
  intros HR Hp. destruct ie as [ie|]; cbn in HR.
  - destruct HR as (Hd & _). rewrite Hd in Hp. symmetry in Hp. by apply snoc_neq in Hp.
  - destruct HR as (hr & Hd & Hr & Hs). rewrite Hd in Hp.
    apply panicked_inv in Hp. destruct hr as [a|v']; [done|].
    cbn in Hp. injection Hp as ->. by subst r.
Qed.

Lemma nil_tracer_panicked_false {A} w (r : Result A) w' v :
  (Panic NilDereference, w) = (r, w') ->
  downstream w' = downstream w ++ [Panic v] -> False.
Proof. intros [= <- <-] Hp. symmetry in Hp. by apply snoc_neq in Hp. Qed.

Lemma entry_points_panicked (m : Interceptor) (w w' : World) (v : PanicValue) :
  downstream w' = downstream w ++ [Panic v] ->
  (∀ ctx req resw h r, Plain.Handle m ctx req resw h w = (r, w') ->
     ∃ t, tracer m = Some t ∧ r = Panic v ∧
     spans w' = spans w ++
       [span_Finish (serverSpan transport_GetPropagationCarrier m t req ∅ w)]) ∧
  (∀ ctx req out r, Plain.Call m ctx req out w = (r, w') ->
     ∃ t, tracer m = Some t ∧ r = Panic v ∧
     spans w' = spans w ++ [span_Finish (clientSpan m t ctx req ∅ w)]) ∧
  (∀ ctx req h r, Plain.HandleOneway m ctx req h w = (r, w') ->
     ∃ t, tracer m = Some t ∧ r = Panic v ∧
     spans w' = spans w ++
       [span_Finish (serverSpan transport_GetPropagationCarrier m t req ∅ w)]) ∧
  (∀ ctx req out r, Plain.CallOneway m ctx req out w = (r, w') ->
     ∃ t, tracer m = Some t ∧ r = Panic v ∧
     spans w' = spans w ++ [span_Finish (clientSpan m t ctx req ∅ w)]) ∧
  (∀ s h r, Plain.HandleStream m s h w = (r, w') ->
     ∃ t, tracer m = Some t ∧ r = Panic v ∧
     spans w' = spans w ++
       [span_Finish (serverSpan transport_GetPropagationCarrier m t
          (ToRequest (Meta (Stream_Request s))) ∅ w)]) ∧
  (∀ ctx req out r, Plain.CallStream m ctx req out w = (r, w') ->
     ∃ t, tracer m = Some t ∧ r = Panic v ∧
     spans w' = spans w ++ [span_Finish (clientSpan m t ctx (ToRequest (Meta req)) ∅ w)]) ∧
  (∀ ctx req resw h r, Pooled.Handle m ctx req resw h w = (r, w') ->
     ∃ t, tracer m = Some t ∧ r = Panic v ∧
     spans w' = spans w ++
       [span_Finish (serverSpan tchannel_GetPropagationCarrier m t req CommonTracingTags w)]) ∧
  (∀ ctx req out r, Pooled.Call m ctx req out w = (r, w') ->
     ∃ t, tracer m = Some t ∧ r = Panic v ∧
     spans w' = spans w ++ [span_Finish (clientSpan m t ctx req CommonTracingTags w)]).
Proof.
  intros Hp. destruct (tracer m) as [t|] eqn:Ht.
  2: { destruct (nil_tracer_runs m Ht) as (N1 & N2 & N3 & N4 & N5 & N6 & N7 & N8).
       split_and!; intros until r;
         rewrite ?N1, ?N2, ?N3, ?N4, ?N5, ?N6, ?N7, ?N8; intros Hrun;
         exfalso; eapply nil_tracer_panicked_false; eauto. }
  split_and!; intros until r; intros Hrun; exists t; (split; [done|]).
  - pose proof (Handle_run m t ctx req resw h w Ht) as HR. rewrite Hrun in HR.
    by apply (inbound_panicked _ _ _ _ _ _ HR).
  - pose proof (Call_run m t ctx req out w Ht) as HR. rewrite Hrun in HR.
    by apply (outbound_panicked _ _ _ _ _ _ _ _ HR).
  - pose proof (HandleOneway_run m t ctx req h w Ht) as HR. rewrite Hrun in HR.
    by apply (inbound_panicked _ _ _ _ _ _ HR).
  - pose proof (CallOneway_run m t ctx req out w Ht) as HR. rewrite Hrun in HR.
    by apply (outbound_panicked _ _ _ _ _ _ _ _ HR).
  - pose proof (HandleStream_run m t s h w Ht) as HR. rewrite Hrun in HR.
    by apply (inbound_panicked _ _ _ _ _ _ HR).
  - pose proof (CallStream_run m t ctx req out w Ht) as HR. rewrite Hrun in HR.
    by apply (outbound_panicked _ _ _ _ _ _ _ _ HR).
  - destruct (Pooled_Handle_run m t ctx req resw h w Ht) as [HR|(_ & _ & Hd & _)];
      rewrite Hrun in *.
    + by apply (inbound_panicked _ _ _ _ _ _ HR).
    + cbn in Hd. rewrite Hd in Hp. symmetry in Hp. by apply snoc_neq in Hp.
  - pose proof (Pooled_Call_run m t ctx req out w Ht) as HR. rewrite Hrun in HR.
    by apply (outbound_panicked _ _ _ _ _ _ _ _ HR).
Qed.

(** X1.  A downstream that answers a nil error, with no application-error
    signal, leaves the span without any error tag: the span is finished once
    with exactly the tags it was started with and no log record, and the
    call returns the nil error.  For the unary outbound the signal is the
    response's flag, for the pooled inbound a [SetApplicationError] call. *)
Theorem success_leaves_span_untagged (m : Interceptor) (w w' : World) (o : Outcome) :
  answered w w' o -> outcome_err o = None ->
  (∀ ctx req resw h r, Plain.Handle m ctx req resw h w = (r, w') ->
     r = Ok None ∧ finishedUntagged w w' (standardTags (Transport req) req ∅)) ∧
  (∀ ctx req out r, Plain.Call m ctx req out w = (r, w') ->
     default false (ApplicationError <$> outcome_response o) = false ->
     r = Ok (outcome_response o, None) ∧
     finishedUntagged w w' (standardTags (transport m) req ∅)) ∧
  (∀ ctx req h r, Plain.HandleOneway m ctx req h w = (r, w') ->
     r = Ok None ∧ finishedUntagged w w' (standardTags (Transport req) req ∅)) ∧
  (∀ ctx req out r, Plain.CallOneway m ctx req out w = (r, w') ->
     (∃ ack, r = Ok (ack, None)) ∧
     finishedUntagged w w' (standardTags (transport m) req ∅)) ∧
  (∀ s h r, Plain.HandleStream m s h w = (r, w') ->
     r = Ok None ∧
     finishedUntagged w w'
       (standardTags (Meta_Transport (Meta (Stream_Request s)))
          (ToRequest (Meta (Stream_Request s))) ∅)) ∧
  (∀ ctx req out r, Plain.CallStream m ctx req out w = (r, w') ->
     (∃ stream, r = Ok (stream, None)) ∧
     finishedUntagged w w' (standardTags (transport m) (ToRequest (Meta req)) ∅)) ∧
  (∀ ctx req resw h r, Pooled.Handle m ctx req resw h w = (r, w') ->
     calledSetApplicationError (outcome_calls o) = false ->
     r = Ok None ∧
     finishedUntagged w w' (standardTags (Transport req) req CommonTracingTags)) ∧
  (∀ ctx req out r, Pooled.Call m ctx req out w = (r, w') ->
     default false (ApplicationError <$> outcome_response o) = false ->
     r = Ok (outcome_response o, None) ∧
     finishedUntagged w w' (standardTags (transport m) req CommonTracingTags)).
Proof.
  intros Ha He.
  destruct (entry_points_answered m w w' o Ha) as (E1 & E2 & E3 & E4 & E5 & E6 & E7 & E8).
  rewrite He in *. unfold finishedUntagged.
  split_and!; intros until r; intros Hrun.
  - apply E1 in Hrun as (t & _ & -> & Hs). split; [done|]. by eexists.
  - intros Hf. apply E2 in Hrun as (t & _ & -> & Hs). split; [done|].
    eexists. split; [exact Hs|]. unfold classifyOutbound. rewrite Hf. done.
  - apply E3 in Hrun as (t & _ & -> & Hs). split; [done|]. by eexists.
  - apply E4 in Hrun as (t & _ & Hr & Hs). split; [done|]. by eexists.
  - apply E5 in Hrun as (t & _ & -> & Hs). split; [done|]. by eexists.
  - apply E6 in Hrun as (t & _ & Hr & Hs). split; [done|]. by eexists.
  - intros Hc. apply E7 in Hrun as (t & _ & -> & Hs). split; [done|].
    eexists. split; [exact Hs|]. unfold observe. rewrite Hc. done.
  - intros Hf. apply E8 in Hrun as (t & _ & -> & Hs). split; [done|].
    eexists. split; [exact Hs|]. unfold classifyOutbound. rewrite Hf. done.
Qed.

(** X2.  Every entry point that classifies with [updateSpanWithError]
    (all but the unary outbound) tags an error that is no structured status
    with [error = true] and [error.type = "unknown_internal_yarpc"].  In the
    pooled inbound this holds even when the handler had called
    [SetApplicationError]: the sentinel overwrites ["application_error"]. *)
Theorem raw_error_tags_span_unknown (m : Interceptor) (w w' : World) (o : Outcome)
    (e : error) :
  answered w w' o -> outcome_err o = Some e -> isStatus e = false ->
  let unknown (w' : World) :=
    tag w' (length (spans w)) "error" = Some (VBool true) ∧
    tag w' (length (spans w)) "error.type" = Some (VString "unknown_internal_yarpc") in
  (∀ ctx req resw h r, Plain.Handle m ctx req resw h w = (r, w') -> unknown w') ∧
  (∀ ctx req h r, Plain.HandleOneway m ctx req h w = (r, w') -> unknown w') ∧
  (∀ ctx req out r, Plain.CallOneway m ctx req out w = (r, w') -> unknown w') ∧
  (∀ s h r, Plain.HandleStream m s h w = (r, w') -> unknown w') ∧
  (∀ ctx req out r, Plain.CallStream m ctx req out w = (r, w') -> unknown w') ∧
  (∀ ctx req resw h r, Pooled.Handle m ctx req resw h w = (r, w') -> unknown w').
Proof.
  intros Ha He Hst unknown.
  destruct (entry_points_answered m w w' o Ha) as (E1 & _ & E3 & E4 & E5 & E6 & E7 & _).
  rewrite He in *. unfold unknown.
  split_and!; intros until r; intros Hrun;
    [ apply E1 in Hrun | apply E3 in Hrun | apply E4 in Hrun | apply E5 in Hrun
    | apply E6 in Hrun | apply E7 in Hrun ];
    destruct Hrun as (t & _ & _ & Hs);
    rewrite !(tag_new _ _ _ _ Hs), classifyError_raw by done;
    by simplify_map_eq.
Qed.

(** X3.  A panic of the downstream handler or outbound is not recovered:
    the entry point panics with the same value.  The deferred [Finish] still
    runs, so the span is finished once; it carries no error tag and no log
    record.  In the pooled inbound nothing is tagged either, although the
    handler may have called [SetApplicationError] before it panicked. *)
Theorem downstream_panic_propagates (m : Interceptor) (w w' : World) (v : PanicValue) :
  downstream w' = downstream w ++ [Panic v] ->
  (∀ ctx req resw h r, Plain.Handle m ctx req resw h w = (r, w') ->
     r = Panic v ∧ finishedUntagged w w' (standardTags (Transport req) req ∅)) ∧
  (∀ ctx req out r, Plain.Call m ctx req out w = (r, w') ->
     r = Panic v ∧ finishedUntagged w w' (standardTags (transport m) req ∅)) ∧
  (∀ ctx req h r, Plain.HandleOneway m ctx req h w = (r, w') ->
     r = Panic v ∧ finishedUntagged w w' (standardTags (Transport req) req ∅)) ∧
  (∀ ctx req out r, Plain.CallOneway m ctx req out w = (r, w') ->
     r = Panic v ∧ finishedUntagged w w' (standardTags (transport m) req ∅)) ∧
  (∀ s h r, Plain.HandleStream m s h w = (r, w') ->
     r = Panic v ∧
     finishedUntagged w w'
       (standardTags (Meta_Transport (Meta (Stream_Request s)))
          (ToRequest (Meta (Stream_Request s))) ∅)) ∧
  (∀ ctx req out r, Plain.CallStream m ctx req out w = (r, w') ->
     r = Panic v ∧
     finishedUntagged w w' (standardTags (transport m) (ToRequest (Meta req)) ∅)) ∧
  (∀ ctx req resw h r, Pooled.Handle m ctx req resw h w = (r, w') ->
     r = Panic v ∧
     finishedUntagged w w' (standardTags (Transport req) req CommonTracingTags)) ∧
  (∀ ctx req out r, Pooled.Call m ctx req out w = (r, w') ->
     r = Panic v ∧
     finishedUntagged w w' (standardTags (transport m) req CommonTracingTags)).
Proof.
  intros Hp.
  destruct (entry_points_panicked m w w' v Hp) as (E1 & E2 & E3 & E4 & E5 & E6 & E7 & E8).
  unfold finishedUntagged.
  split_and!; intros until r; intros Hrun;
    [ apply E1 in Hrun | apply E2 in Hrun | apply E3 in Hrun | apply E4 in Hrun
    | apply E5 in Hrun | apply E6 in Hrun | apply E7 in Hrun | apply E8 in Hrun ];
    destruct Hrun as (t & _ & -> & Hs); (split; [done|]); by eexists.
Qed.

(** X4.  Every outbound call, whatever the inject step and the downstream
    outbound do, starts exactly one span, as a child of the span the caller's
    context carries (a root when it carries none), and finishes it exactly
    once; the spans of other calls are not touched. *)
Theorem outbound_span_finished_once (m : Interceptor) (t : Tracer) (w : World) :
  tracer m = Some t ->
  (∀ ctx req out,
     finishedOnce w (Plain.Call m ctx req out w).2 (clientParent ctx (spans w))) ∧
  (∀ ctx req out,
     finishedOnce w (Plain.CallOneway m ctx req out w).2 (clientParent ctx (spans w))) ∧
  (∀ ctx req out,
     finishedOnce w (Plain.CallStream m ctx req out w).2 (clientParent ctx (spans w))) ∧
  (∀ ctx req out,
     finishedOnce w (Pooled.Call m ctx req out w).2 (clientParent ctx (spans w))).
Proof.
  intros Ht.
  destruct (entry_points_span m t w Ht) as (_ & E2 & _ & E4 & _ & E6 & _ & E8).
  split_and!; intros;
    [ destruct (E2 ctx req out) as (s0 & Hs & (_ & _ & Hp & _) & Hf)
    | destruct (E4 ctx req out) as (s0 & Hs & (_ & _ & Hp & _) & Hf)
    | destruct (E6 ctx req out) as (s0 & Hs & (_ & _ & Hp & _) & Hf)
    | destruct (E8 ctx req out) as (s0 & Hs & (_ & _ & Hp & _) & Hf) ];
    by exists s0.
Qed.

(** X5.  Without an application-error flag (a nil response, or a response
    whose flag is false) the outbound classifier does exactly what the
    inbound classifier does: same tags, same returned error. *)
Theorem classifiers_agree_without_application_error (span : SpanRef)
    (res : option Response) (err : option error) (w : World) :
  default false (ApplicationError <$> res) = false ->
  updateSpanWithOutboundError span res err w = updateSpanWithError span err w.
Proof.
  intros Hf. rewrite updateSpanWithOutboundError_run, updateSpanWithError_run.
  do 3 f_equal. unfold classifyOutbound, classifyError. rewrite Hf.
  destruct err as [e|]; cbn; [|done]. by destruct (isStatus e).
Qed.

(** *** What the classifiers leave alone *)

Lemma alter_onlyErrorTags (f : Span -> Span) (span : SpanRef) (w : World) :
  (∀ s, sp_logs (f s) = sp_logs s ∧ sp_finished (f s) = sp_finished s ∧
        sp_context (f s) = sp_context s ∧
        ∀ k, k ∉ errorKeys -> sp_tags (f s) !! k = sp_tags s !! k) ->
  onlyErrorTags span w (set_spans (alter f span) w).
Proof.
  intros Hf. unfold onlyErrorTags, tag, SpanRef in *. cbn.
  split_and!; try done.
  - apply length_alter.
  - intros i Hi. by apply list_lookup_alter_ne.
  - intros k Hk. rewrite list_lookup_alter_eq.
    destruct (spans w !! span) as [s|]; [|done]. cbn.
    destruct (Hf s) as (_ & _ & _ & Ht). by apply Ht.
  - rewrite list_lookup_alter_eq. destruct (spans w !! span) as [s|]; [|done].
    cbn. destruct (Hf s) as (-> & _). done.
  - rewrite list_lookup_alter_eq. destruct (spans w !! span) as [s|]; [|done].
    cbn. destruct (Hf s) as (_ & -> & _). done.
  - rewrite list_lookup_alter_eq. destruct (spans w !! span) as [s|]; [|done].
    cbn. destruct (Hf s) as (_ & _ & -> & _). done.
Qed.

Lemma not_errorKey k :
  k ∉ errorKeys -> k ≠ "error" ∧ k ≠ "error.type" ∧ k ≠ "rpc.yarpc.status_code".
Proof.
  unfold errorKeys. intros Hk. rewrite !not_elem_of_cons in Hk.
  by destruct Hk as (? & ? & ? & _).
Qed.

Lemma classifyError_onlyErrorTags err s :
  sp_logs (classifyError err s) = sp_logs s ∧
  sp_finished (classifyError err s) = sp_finished s ∧
  sp_context (classifyError err s) = sp_context s ∧
  ∀ k, k ∉ errorKeys -> sp_tags (classifyError err s) !! k = sp_tags s !! k.
Proof.
  unfold classifyError. destruct err as [e|]; [destruct (isStatus e)|];
    (split_and!; [done..|]); intros k Hk; apply not_errorKey in Hk as (? & ? & ?);
    cbn; by simplify_map_eq.
Qed.

Lemma classifyOutbound_onlyErrorTags res err s :
  sp_logs (classifyOutbound res err s) = sp_logs s ∧
  sp_finished (classifyOutbound res err s) = sp_finished s ∧
  sp_context (classifyOutbound res err s) = sp_context s ∧
  ∀ k, k ∉ errorKeys -> sp_tags (classifyOutbound res err s) !! k = sp_tags s !! k.
Proof.
  unfold classifyOutbound.
  destruct (isNil err && _), (IsStatus err), (default false (ApplicationError <$> res));
    (split_and!; [done..|]); intros k Hk; apply not_errorKey in Hk as (? & ? & ?);
    cbn; by simplify_map_eq.
Qed.

(** X6.  The classifiers change nothing but tags of the span they are
    given, under the keys [error], [error.type] and [rpc.yarpc.status_code]:
    every other tag of that span, its log records, its finish count, every
    other span, the downstream history, the response writers and the pool are
    as they were. *)
Theorem classifiers_touch_only_error_tags (span : SpanRef) (res : option Response)
    (err : option error) (w : World) :
  onlyErrorTags span w (updateSpanWithError span err w).2 ∧
  onlyErrorTags span w (updateSpanWithOutboundError span res err w).2.
Proof.
  rewrite updateSpanWithError_run, updateSpanWithOutboundError_run. split.
  - apply alter_onlyErrorTags. intros s. apply classifyError_onlyErrorTags.
  - apply alter_onlyErrorTags. intros s. apply classifyOutbound_onlyErrorTags.
Qed.

(** *** What the downstream is given *)

(** X7.  When the inject step succeeds, an outbound call invokes the
    downstream outbound exactly once, with the context that carries the span
    the call has started and with the caller's request extended by every
    header the tracer injected (all other fields as given), and returns what
    the outbound answered. *)
Theorem outbound_passes_injected_headers (m : Interceptor) (t : Tracer) (ctx : Context)
    (w : World) (hs : gmap string string) :
  tracer m = Some t ->
  let ctx' := {| ctx_span := Some (length (spans w)) |} in
  (∀ req out,
     injectStep transport_GetPropagationCarrier m t ctx (Procedure req) w = (hs, None) ->
     let req' := withHeaders (mergeHeaders hs (Headers req)) req in
     (Plain.Call m ctx req out w).1 = out ctx' req' ∧
     downstream (Plain.Call m ctx req out w).2
       = downstream w ++ [unaryOutcome <$> out ctx' req']) ∧
  (∀ req out,
     injectStep transport_GetPropagationCarrier m t ctx (Procedure req) w = (hs, None) ->
     let req' := withHeaders (mergeHeaders hs (Headers req)) req in
     (Plain.CallOneway m ctx req out w).1 = out ctx' req' ∧
     downstream (Plain.CallOneway m ctx req out w).2
       = downstream w ++ [callOutcome <$> out ctx' req']) ∧
  (∀ req out,
     injectStep transport_GetPropagationCarrier m t ctx (Meta_Procedure (Meta req)) w
       = (hs, None) ->
     let req' := withMetaHeaders (mergeHeaders hs (Meta_Headers (Meta req))) req in
     (Plain.CallStream m ctx req out w).1 = out ctx' req' ∧
     downstream (Plain.CallStream m ctx req out w).2
       = downstream w ++ [callOutcome <$> out ctx' req']) ∧
  (∀ req out,
     injectStep tchannel_GetPropagationCarrier m t ctx (Procedure req) w = (hs, None) ->
     let req' := withHeaders (mergeHeaders hs (Headers req)) req in
     (Pooled.Call m ctx req out w).1 = out ctx' req' ∧
     downstream (Pooled.Call m ctx req out w).2
       = downstream w ++ [unaryOutcome <$> out ctx' req']).
Proof.
  intros Ht. cbv zeta. unfold injectStep.
  split_and!; intros req out Hi;
    unfold Plain.Call, Plain.CallOneway, Plain.CallStream, Pooled.Call;
    rewrite Ht; run; rewrite lookup_snoc; run; rewrite Hi; run;
    match goal with |- context [out ?c ?r] =>
      destruct (out c r) as [[res err]|v] eqn:E end;
    run; rewrite ?updateSpanWithOutboundError_run, ?updateSpanWithError_run; run;
    match goal with E : out _ _ = ?rhs |- context [out ?c' ?r'] =>
      replace (out c' r') with rhs by (symmetry; exact E) end; done.
Qed.

(** X8.  The inbound entry points of interceptor.go hand the handler the
    caller's request unchanged and return what the handler returned.  The
    unary and oneway handlers get the context that carries the new span, the
    unary handler talks to the transport's own response writer, and what it
    did to that writer is what the caller finds; the stream handler gets the
    stream as it came, so its context does not carry the new span. *)
Theorem inbound_handler_runs_unchanged (m : Interceptor) (t : Tracer) (w : World) :
  tracer m = Some t ->
  let ctx' := {| ctx_span := Some (length (spans w)) |} in
  (∀ ctx req resw h,
     let w1 := set_spans
                 (fun l => l ++ [serverSpan transport_GetPropagationCarrier m t req ∅ w]) w in
     let x := runHandler (transportWriter resw) (h ctx' req) w1 in
     (Plain.Handle m ctx req resw h w).1 = snd <$> x.1 ∧
     writers (Plain.Handle m ctx req resw h w).2 = writers x.2) ∧
  (∀ ctx req h, (Plain.HandleOneway m ctx req h w).1 = h ctx' req) ∧
  (∀ s h, (Plain.HandleStream m s h w).1 = h s).
Proof.
  intros Ht. cbv zeta. split_and!; intros.
  - unfold Plain.Handle, serverSpan, extractStep. rewrite Ht. run.
    destruct (Tracer_Extract t _ _) as [parent xerr]. run.
    unfold UnaryHandler_Handle.
    match goal with |- context [runHandler ?rw ?p ?w1] =>
      destruct (runHandler rw p w1) as [hr w2] eqn:E end.
    repeat match goal with E : runHandler _ _ _ = ?rhs |- context [runHandler ?rw ?p ?w1] =>
      replace (runHandler rw p w1) with rhs by (symmetry; exact E) end.
    destruct hr as [[cs err]|v]; run; rewrite ?updateSpanWithError_run; run; done.
  - unfold Plain.HandleOneway. rewrite Ht. run.
    destruct (Tracer_Extract t _ _) as [parent xerr]. run.
    match goal with |- context [h ?c ?r] => destruct (h c r) as [err|v] eqn:E end;
      run; rewrite ?updateSpanWithError_run; run;
      match goal with E : h _ _ = ?rhs |- context [h ?c' ?r'] =>
        replace (h c' r') with rhs by (symmetry; exact E) end; done.
  - unfold Plain.HandleStream. rewrite Ht. run.
    destruct (Tracer_Extract t _ _) as [parent xerr]. run.
    destruct (h s) as [err|v]; run; rewrite ?updateSpanWithError_run; run; done.
Qed.

(** *** The pooled writer, method by method *)

Lemma loadWriter_ok (r : nat) tw w :
  writers w !! r = Some tw -> loadWriter (Some r) w = (Ok tw, w).
Proof. intros E. unfold loadWriter. run. by rewrite E. Qed.

Lemma receive_ok (r : nat) c tw w :
  writers w !! r = Some tw ->
  receive (Some r) c w = (Ok (), set_writers (alter (logCall c) r) w).
Proof. intros E. unfold receive, loadWriter. run. rewrite E. by run. Qed.

Lemma received_lookup (r : nat) c tw w :
  writers w !! r = Some tw ->
  writers (set_writers (alter (logCall c) r) w) !! r = Some (logCall c tw).
Proof. intros E. cbn. by rewrite list_lookup_alter_eq, E. Qed.

Lemma transport_Write_ok (r : nat) p tw w :
  writers w !! r = Some tw ->
  rw_Write (transportWriter (Some r)) p w =
  (Ok match tw_writeErr tw with
      | None => (Z.of_nat (length p), None)
      | Some e => (0, Some e)
      end,
   set_writers (alter (logCall (CallWrite p)) r) w).
Proof.
  intros E. cbn -[loadWriter receive]. unfold mbind, M_bind.
  rewrite (loadWriter_ok _ _ _ E), (receive_ok _ _ _ _ E).
  by destruct (tw_writeErr tw).
Qed.

Lemma transport_isMetaSetter_ok (r : nat) tw w :
  writers w !! r = Some tw ->
  rw_isMetaSetter (transportWriter (Some r)) w = (Ok (tw_isMetaSetter tw), w).
Proof. intros E. cbn. run. by rewrite E. Qed.

Lemma wraps_stored l r x tw w x' :
  wraps l r x tw w -> ResponseWriter x' = Some r ->
  wraps l r x' tw (set_heap (fun h => <[l := x']> h) w).
Proof.
  intros (Hx & Hr & Htw) Hr'. split_and!; [|done|done].
  by eapply stored_lookup.
Qed.

Lemma wraps_received l r x tw w c :
  wraps l r x tw w -> wraps l r x (logCall c tw) (set_writers (alter (logCall c) r) w).
Proof.
  intros (Hx & Hr & Htw). split_and!; [done|done|]. by apply received_lookup.
Qed.

Lemma writer_AddHeaders_ok l r x tw w h :
  wraps l r x tw w ->
  Pooled.writer_AddHeaders l h w =
  (Ok (), set_writers (alter (logCall (CallAddHeaders h)) r) w).
Proof.
  intros (Hx & Hr & Htw). unfold Pooled.writer_AddHeaders, mbind, M_bind.
  rewrite (load_ok _ _ _ Hx), Hr. cbn -[receive]. by apply receive_ok with tw.
Qed.

Lemma writer_update_ok {A} l r x tw w (f : writer -> writer) (k : writer -> M A) :
  wraps l r x tw w ->
  (x0 ← Pooled.load l; Pooled.store l (f x0);; x1 ← Pooled.load l; k x1) w =
  k (f x) (set_heap (fun h => <[l := f x]> h) w).
Proof.
  intros (Hx & Hr & Htw).
  pose proof (stored_lookup l (f x) w x Hx) as Hx'.
  unfold mbind, M_bind. rewrite (load_ok _ _ _ Hx), (store_ok _ _ _ _ Hx).
  cbv beta iota. by rewrite (load_ok _ _ _ Hx').
Qed.

Lemma writer_SetApplicationError_ok l r x tw w :
  wraps l r x tw w ->
  Pooled.writer_SetApplicationError l w =
  (Ok (), set_writers (alter (logCall CallSetApplicationError) r)
            (set_heap (fun h => <[l := withFlag x]> h) w)).
Proof.
  intros Hw. unfold Pooled.writer_SetApplicationError.
  etrans; [exact (writer_update_ok l r x tw w withFlag
             (fun x1 => rw_SetApplicationError (transportWriter (ResponseWriter x1))) Hw)|].
  destruct Hw as (Hx & Hr & Htw). cbn [withFlag ResponseWriter]. rewrite Hr.
  cbn -[receive]. by apply receive_ok with tw.
Qed.

Lemma writer_Write_ok l r x tw w p :
  wraps l r x tw w ->
  Pooled.writer_Write l p w =
  (Ok match tw_writeErr tw with
      | None => (Z.of_nat (length p), None)
      | Some e => (0, Some e)
      end,
   set_writers (alter (logCall (CallWrite p)) r)
     (set_heap (fun h => <[l := withBytes p x]> h) w)).
Proof.
  intros Hw. unfold Pooled.writer_Write.
  etrans; [exact (writer_update_ok l r x tw w (withBytes p)
             (fun x1 => rw_Write (transportWriter (ResponseWriter x1)) p) Hw)|].
  destruct Hw as (Hx & Hr & Htw). cbn [withBytes ResponseWriter]. rewrite Hr.
  by apply transport_Write_ok.
Qed.

Lemma writer_SetApplicationErrorMeta_ok l r x tw w a :
  wraps l r x tw w ->
  Pooled.writer_SetApplicationErrorMeta l (Some a) w =
  (Ok (),
   if tw_isMetaSetter tw
   then set_writers (alter (logCall (CallSetApplicationErrorMeta (Some a))) r)
          (set_heap (fun h => <[l := withMeta (Some a) x]> h) w)
   else set_heap (fun h => <[l := withMeta (Some a) x]> h) w).
Proof.
  intros Hw. unfold Pooled.writer_SetApplicationErrorMeta. cbn [isNil].
  etrans; [exact (writer_update_ok l r x tw w (withMeta (Some a))
             (fun x1 => ok ← rw_isMetaSetter (transportWriter (ResponseWriter x1));
                        if ok : bool
                        then rw_SetApplicationErrorMeta
                               (transportWriter (ResponseWriter x1)) (Some a)
                        else mret ()) Hw)|].
  destruct Hw as (Hx & Hr & Htw). cbn [withMeta ResponseWriter]. rewrite Hr.
  unfold mbind, M_bind. rewrite (transport_isMetaSetter_ok r tw) by done.
  destruct (tw_isMetaSetter tw); [|done].
  cbn -[receive]. by apply receive_ok with tw.
Qed.

(** *** The pooled writer under a handler *)

Lemma observer_run l r p :
  ∀ w x tw cs err w',
    wraps l r x tw w ->
    runHandler (Pooled.writerMethods l) p w = (Ok (cs, err), w') ->
    ∃ x' tw', wraps l r x' tw' w' ∧
      tw_calls tw' = tw_calls tw ++ forwarded (tw_isMetaSetter tw) cs ∧
      tw_isMetaSetter tw' = tw_isMetaSetter tw ∧
      isApplicationError x' = isApplicationError x || calledSetApplicationError cs ∧
      applicationErrorMeta x' = lastMeta cs (applicationErrorMeta x) ∧
      responseSize x' = sizeAfter cs (responseSize x).
Proof.
  induction p as [err0|v|h k IH|p k IH|k IH|meta k IH]; intros w x tw cs err w' Hw Hrun.
  - cbn in Hrun. injection Hrun as <- <- <-. exists x, tw.
    cbn. by rewrite app_nil_r, orb_false_r.
  - done.
  - cbn -[Pooled.writer_AddHeaders] in Hrun. unfold mbind, M_bind in Hrun.
    rewrite (writer_AddHeaders_ok _ _ _ _ _ h Hw) in Hrun.
    destruct (runHandler _ k _) as [[[cs' e']|v] w2] eqn:E; [|done].
    cbn in Hrun. injection Hrun as <- <- <-.
    destruct (IH _ _ _ _ _ _ (wraps_received _ _ _ _ _ (CallAddHeaders h) Hw) E)
      as (x' & tw' & Hw' & Hc & Hs & Hf & Hm & Hz).
    exists x', tw'. split_and!; try done.
    rewrite Hc. unfold forwarded. cbn. rewrite <- app_assoc. reflexivity.
  - cbn -[Pooled.writer_Write] in Hrun. unfold mbind, M_bind in Hrun.
    rewrite (writer_Write_ok _ _ _ _ _ p Hw) in Hrun.
    destruct (runHandler _ (k _ _) _) as [[[cs' e']|v] w2] eqn:E; [|done].
    cbn in Hrun. injection Hrun as <- <- <-.
    assert (wraps l r (withBytes p x) (logCall (CallWrite p) tw)
              (set_writers (alter (logCall (CallWrite p)) r)
                 (set_heap (fun h => <[l := withBytes p x]> h) w))) as Hw1.
    { apply wraps_received. eapply wraps_stored; [done|]. apply Hw. }
    destruct (IH _ _ _ _ _ _ _ _ Hw1 E) as (x' & tw' & Hw' & Hc & Hs & Hf & Hm & Hz).
    exists x', tw'. split_and!; try done.
    rewrite Hc. unfold forwarded. cbn. rewrite <- app_assoc. reflexivity.
  - cbn -[Pooled.writer_SetApplicationError] in Hrun. unfold mbind, M_bind in Hrun.
    rewrite (writer_SetApplicationError_ok _ _ _ _ _ Hw) in Hrun.
    destruct (runHandler _ k _) as [[[cs' e']|v] w2] eqn:E; [|done].
    cbn in Hrun. injection Hrun as <- <- <-.
    assert (wraps l r (withFlag x) (logCall CallSetApplicationError tw)
              (set_writers (alter (logCall CallSetApplicationError) r)
                 (set_heap (fun h => <[l := withFlag x]> h) w))) as Hw1.
    { apply wraps_received. eapply wraps_stored; [done|]. apply Hw. }
    destruct (IH _ _ _ _ _ _ Hw1 E) as (x' & tw' & Hw' & Hc & Hs & Hf & Hm & Hz).
    exists x', tw'. split_and!; try done.
    + rewrite Hc. unfold forwarded. cbn. rewrite <- app_assoc. reflexivity.
    + rewrite Hf. cbn. by rewrite orb_true_r.
  - cbn -[Pooled.writer_SetApplicationErrorMeta] in Hrun.
    unfold mbind, M_bind, mret, M_ret in Hrun.
    destruct meta as [a|].
    + rewrite (writer_SetApplicationErrorMeta_ok _ _ _ _ _ a Hw) in Hrun.
      destruct (runHandler _ k _) as [[[cs' e']|v] w2] eqn:E; [|done].
      cbn in Hrun. injection Hrun as <- <- <-.
      destruct (tw_isMetaSetter tw) eqn:Hset.
      * assert (wraps l r (withMeta (Some a) x)
                  (logCall (CallSetApplicationErrorMeta (Some a)) tw)
                  (set_writers (alter (logCall (CallSetApplicationErrorMeta (Some a))) r)
                     (set_heap (fun h => <[l := withMeta (Some a) x]> h) w))) as Hw1.
        { apply wraps_received. eapply wraps_stored; [done|]. apply Hw. }
        destruct (IH _ _ _ _ _ _ Hw1 E) as (x' & tw' & Hw' & Hc & Hs & Hf & Hm & Hz).
        exists x', tw'. cbn in Hs. rewrite Hset in *. split_and!; try done.
        rewrite Hc. unfold forwarded. cbn. rewrite Hset, <- app_assoc. reflexivity.
      * assert (wraps l r (withMeta (Some a) x) tw
                  (set_heap (fun h => <[l := withMeta (Some a) x]> h) w)) as Hw1.
        { eapply wraps_stored; [done|]. apply Hw. }
        destruct (IH _ _ _ _ _ _ Hw1 E) as (x' & tw' & Hw' & Hc & Hs & Hf & Hm & Hz).
        exists x', tw'. rewrite Hset in *. by split_and!.
    + cbn in Hrun.
      destruct (runHandler _ k _) as [[[cs' e']|v] w2] eqn:E; [|done].
      cbn in Hrun. injection Hrun as <- <- <-.
      destruct (IH _ _ _ _ _ _ Hw E) as (x' & tw' & Hw' & Hc & Hs & Hf & Hm & Hz).
      exists x', tw'. by split_and!.
Qed.

Lemma totalBytes_nonneg cs : 0 <= totalBytes cs.
Proof. induction cs as [|[] cs IH]; cbn; lia. Qed.

Lemma wrap_int_small z : - 2 ^ 63 <= z < 2 ^ 63 -> Pooled.wrap_int z = z.
Proof. intros Hz. unfold Pooled.wrap_int. rewrite Z.mod_small; lia. Qed.

Lemma sizeAfter_small cs z :
  0 <= z -> z + totalBytes cs < 2 ^ 63 -> sizeAfter cs z = z + totalBytes cs.
Proof.
  revert z. induction cs as [|c cs IH]; intros z Hz0 Hlt; cbn in *; [lia|].
  pose proof (totalBytes_nonneg cs).
  destruct c; try (by apply IH).
  rewrite wrap_int_small by lia. rewrite IH; lia.
Qed.

(** X9.  The pooled writer forwards to the transport's response writer it
    wraps: when a handler has run against it and returned, the transport
    writer has received exactly the handler's calls, in order, none dropped
    and none repeated, except [SetApplicationErrorMeta], which is dropped
    when its argument is nil or the transport writer is no
    [ApplicationErrorMetaSetter]. *)
Theorem observer_forwards_calls (l : Loc) (r : nat) (x : writer) (tw : TransportWriter)
    (p : HandlerProg) (w w' : World) (cs : list WriterCall) (err : option error) :
  wraps l r x tw w ->
  runHandler (Pooled.writerMethods l) p w = (Ok (cs, err), w') ->
  ∃ tw', writers w' !! r = Some tw' ∧
         tw_calls tw' = tw_calls tw ++ forwarded (tw_isMetaSetter tw) cs.
Proof.
  intros Hw Hrun.
  destruct (observer_run l r p _ _ _ _ _ _ Hw Hrun) as (x' & tw' & (_ & _ & Htw) & Hc & _).
  by exists tw'.
Qed.

(** X10.  The pooled writer records what the handler did: after the
    handler returned, its flag is set exactly when the handler called
    [SetApplicationError] (or it was set before), its metadata is the last
    non-nil one the handler passed, it still wraps the same transport
    writer, and, as long as the count stays below 2^63, its byte count has
    grown by the length of everything handed to [Write], whether or not the
    transport writer accepted it. *)
Theorem observer_records_calls (l : Loc) (r : nat) (x : writer) (tw : TransportWriter)
    (p : HandlerProg) (w w' : World) (cs : list WriterCall) (err : option error) :
  wraps l r x tw w ->
  runHandler (Pooled.writerMethods l) p w = (Ok (cs, err), w') ->
  0 <= responseSize x -> responseSize x + totalBytes cs < 2 ^ 63 ->
  ∃ x', heap w' !! l = Some x' ∧
        ResponseWriter x' = Some r ∧
        isApplicationError x' = isApplicationError x || calledSetApplicationError cs ∧
        applicationErrorMeta x' = lastMeta cs (applicationErrorMeta x) ∧
        responseSize x' = responseSize x + totalBytes cs.
Proof.
  intros Hw Hrun Hz0 Hlt.
  destruct (observer_run l r p _ _ _ _ _ _ Hw Hrun)
    as (x' & tw' & (Hx & Hr & _) & _ & _ & Hf & Hm & Hz).
  exists x'. split_and!; try done. rewrite Hz. by apply sizeAfter_small.
Qed.

(** *** The pool under [Handle] *)

Lemma delete_lookup_None {A} (l : list A) (i : nat) : l !! i = None -> delete i l = l.
Proof.
  revert i. induction l as [|a l IH]; intros [|i] Hi; try done.
  cbn in *. f_equal. by apply IH.
Qed.

Lemma runHandler_poolKept l p w :
  poolKept w (runHandler (Pooled.writerMethods l) p w).2.
Proof.
  destruct (writer_methods_poolKept l) as (HA & HW & HS & HM).
  revert w. induction p as [err|v|h k IH|p k IH|k IH|meta k IH]; intros w;
    cbn -[Pooled.writer_AddHeaders Pooled.writer_Write Pooled.writer_SetApplicationError
          Pooled.writer_SetApplicationErrorMeta]; try done.
  - apply frame_bind; [apply _|apply HA|]. intros _ w1.
    apply frame_bind; [apply _|apply IH|]. by intros [cs e] w2.
  - apply frame_bind; [apply _|apply HW|]. intros x w1.
    apply frame_bind; [apply _|apply IH|]. by intros [cs e] w2.
  - apply frame_bind; [apply _|apply HS|]. intros _ w1.
    apply frame_bind; [apply _|apply IH|]. by intros [cs e] w2.
  - apply frame_bind; [apply _|done|]. intros [|] w1; [|apply IH].
    apply frame_bind; [apply _|apply HM|]. intros _ w2.
    apply frame_bind; [apply _|apply IH|]. by intros [cs e] w3.
Qed.

Lemma newWriter_detail rw w :
  Pooled.poolValid w ->
  ∃ l w1, Pooled.newWriter rw w = (Ok l, w1) ∧
          heap w1 !! l = Some (Pooled.freshWriter rw) ∧
          Pooled.poolValid w1 ∧ sameTrace w w1 ∧
          pool w1 = delete (nextChoice w) (pool w) ∧
          l = default (length (heap w)) (pool w !! nextChoice w) ∧
          length (heap w1) =
            (length (heap w) + match pool w !! nextChoice w with Some _ => 0 | None => 1 end)%nat.
Proof.
  intros Hv. unfold Pooled.newWriter, Pooled.writerPool_Get, Pooled.writerPool_New,
    Pooled.store, Pooled.load, nextChoice.
  run. destruct (pool w !! hd 0%nat (poolChoices w)) as [l|] eqn:Hp; run.
  - assert (l < length (heap w))%nat as Hl.
    { unfold Pooled.poolValid in Hv. rewrite Forall_lookup in Hv. by eapply Hv. }
    destruct (heap w !! l) as [x|] eqn:Hx; run.
    2: { apply lookup_ge_None in Hx. lia. }
    eexists _, _. split; [done|]. cbn. split_and!; try done.
    + by apply list_lookup_insert_eq.
    + unfold Pooled.poolValid. cbn. rewrite length_insert. by apply Forall_delete.
    + rewrite length_insert. lia.
  - rewrite lookup_snoc. run. eexists _, _. split; [done|]. cbn.
    rewrite insert_snoc. split_and!; try done.
    + apply lookup_snoc.
    + unfold Pooled.poolValid in *. cbn. rewrite length_app. cbn.
      eapply Forall_impl; [exact Hv|]. intros; cbn in *; lia.
    + symmetry. by apply delete_lookup_None.
    + by rewrite length_app.
Qed.

(** X11.  The pooled [Handle] keeps the pool sound and accounts for the
    writer it takes: with a pool of allocated writers it invokes the handler
    exactly once; when the handler returns, the writer is back in the pool,
    and when the handler panics it is not (the release is not deferred); a
    writer is allocated only when the pool had none to give; and the pool
    holds allocated writers afterwards. *)
Theorem Handle_returns_writer_to_pool (m : Interceptor) (t : Tracer) (ctx : Context)
    (req : Request) (resw : ResponseWriterRef) (h : UnaryHandler) (w : World) :
  tracer m = Some t -> Pooled.poolValid w ->
  let w' := (Pooled.Handle m ctx req resw h w).2 in
  Pooled.poolValid w' ∧
  ∃ hr, downstream w' = downstream w ++ [hr] ∧
        pool w' = delete (nextChoice w) (pool w) ++
                  match hr with
                  | Ok _ => [default (length (heap w)) (pool w !! nextChoice w)]
                  | Panic _ => []
                  end ∧
        length (heap w') =
          (length (heap w) + match pool w !! nextChoice w with Some _ => 0 | None => 1 end)%nat.
Proof.
  intros Ht Hv. cbv zeta. unfold Pooled.Handle. rewrite Ht. run.
  destruct (Tracer_Extract t _ _) as [parent xerr]. run.
  match goal with |- context [Pooled.newWriter resw ?w1] =>
    destruct (newWriter_detail resw w1 Hv)
      as (l & w2 & Hn & Hl & Hv2 & [Hs Hd] & Hp & Hlv & Hh) end.
  cbn in Hs, Hd, Hp, Hlv, Hh. fold (nextChoice w) in Hp, Hlv, Hh. rewrite !Hn.
  unfold UnaryHandler_Handle.
  match goal with |- context [runHandler ?rw ?p w2] =>
    destruct (runHandler_writer l p w2 false) as [[Hs' Hd'] Hf];
      [by exists (Pooled.freshWriter resw)|];
    pose proof (runHandler_poolKept l p w2) as [Hp' Hh'];
    destruct (runHandler rw p w2) as [hr w3] end.
  cbn in Hs', Hd', Hf, Hp', Hh'.
  assert (l < length (heap w3))%nat as Hlt.
  { rewrite Hh'. by eapply lookup_lt_Some. }
  destruct hr as [[cs err]|v]; run.
  - destruct Hf as (x & Hx & Hb).
    erewrite load_ok by (cbn; exact Hx).
    destruct (isApplicationError x); run; rewrite updateSpanWithError_run; run;
      (split; [unfold Pooled.poolValid in *; cbn; rewrite Hp'; apply Forall_app;
               split; [by rewrite Hh'|by apply Forall_singleton]|]);
      eexists; rewrite Hd', Hd, Hp', Hp, Hh', Hh, Hlv; done.
  - split; [unfold Pooled.poolValid in *; cbn; by rewrite Hp', Hh'|].
    exists (Panic v). rewrite Hd', Hd, Hp', Hp, Hh', Hh, app_nil_r. done.
Qed.

Lemma newWriter_writers rw w : writers (Pooled.newWriter rw w).2 = writers w.
Proof.
  unfold Pooled.newWriter, Pooled.writerPool_Get, Pooled.writerPool_New,
    Pooled.store, Pooled.load.
  run. destruct (pool w !! hd 0%nat (poolChoices w)) as [l|] eqn:Hp; run.
  - by destruct (heap w !! l).
  - by rewrite lookup_snoc.
Qed.

(** X12.  The pooled [Handle] does not stand between the handler and the
    transport's response writer: once the handler has returned, the
    transport writer has received exactly the calls the handler made, in
    order, except [SetApplicationErrorMeta] with a nil argument or on a
    transport writer that is no [ApplicationErrorMetaSetter]. *)
Theorem Handle_forwards_to_transport_writer (m : Interceptor) (ctx : Context)
    (req : Request) (r : nat) (tw : TransportWriter) (h : UnaryHandler)
    (w w' : World) (res : Result (option error)) (o : Outcome) :
  writers w !! r = Some tw ->
  Pooled.Handle m ctx req (Some r) h w = (res, w') ->
  answered w w' o ->
  ∃ tw', writers w' !! r = Some tw' ∧
         tw_calls tw' = tw_calls tw ++ forwarded (tw_isMetaSetter tw) (outcome_calls o).
Proof.
  intros Htw Hrun Ha. destruct (tracer m) as [t|] eqn:Ht.
  2: { rewrite (proj1 (proj2 (proj2 (proj2 (proj2 (proj2 (proj2 (nil_tracer_runs m Ht))))))))
         in Hrun. exfalso. eapply nil_tracer_idle_false; eauto. }
  revert Hrun. unfold Pooled.Handle. rewrite Ht. run.
  destruct (Tracer_Extract t _ _) as [parent xerr]. run.
  match goal with |- context [Pooled.newWriter (Some r) ?w1] =>
    pose proof (newWriter_cases (Some r) w1) as [[Hs Hd] Hn];
    pose proof (newWriter_writers (Some r) w1) as Hws;
    destruct (Pooled.newWriter (Some r) w1) as [[l|v] w2] end;
    cbn in Hs, Hd, Hn, Hws.
  2: { run. intros [= <- <-]. cbn in Ha. unfold answered in Ha. cbn in Ha.
       rewrite Hd in Ha. symmetry in Ha. by apply snoc_neq in Ha. }
  unfold UnaryHandler_Handle.
  match goal with |- context [runHandler ?rw ?p w2] =>
    destruct (runHandler_writer l p w2 false) as [[Hs' Hd'] Hf];
      [by exists (Pooled.freshWriter (Some r))|];
    destruct (runHandler rw p w2) as [hr w3] eqn:E end.
  cbn in Hs', Hd', Hf.
  destruct hr as [[cs err]|v]; run.
  2: { intros [= <- <-]. unfold answered in Ha. cbn in Ha.
       rewrite Hd', Hd in Ha. by apply app_inj_tail in Ha as [_ Ha]. }
  assert (wraps l r (Pooled.freshWriter (Some r)) tw w2) as Hw2.
  { split_and!; [done|done|by rewrite Hws]. }
  destruct (observer_run l r _ _ _ _ _ _ _ Hw2 E)
    as (x' & tw' & (Hx & _ & Htw') & Hc & _).
  erewrite load_ok by (cbn; exact Hx).
  destruct (isApplicationError x'); run; rewrite updateSpanWithError_run; run;
    intros [= <- <-]; unfold answered in Ha; cbn in Ha; rewrite Hd', Hd in Ha;
    apply app_inj_tail in Ha as [_ [= <-]]; by exists tw'.
Qed.

(** X13.  The pool hands a released writer out again, reset and without
    allocating, when [Get] selects it; and when the pool has nothing at the
    index [Get] selects, [newWriter] allocates one writer and leaves the
    writers that exist untouched. *)
Theorem pool_reuses_released_writer (rw : ResponseWriterRef) (w : World) :
  (∀ (l : Loc) x,
     heap w !! l = Some x -> nextChoice w = length (pool w) ->
     ∃ w', Pooled.newWriter rw (Pooled.writer_free l w).2 = (Ok l, w') ∧
           heap w' = <[l := Pooled.freshWriter rw]> (heap w) ∧
           pool w' = pool w) ∧
  (pool w !! nextChoice w = None ->
   ∃ w', Pooled.newWriter rw w = (Ok (length (heap w)), w') ∧
         heap w' = heap w ++ [Pooled.freshWriter rw] ∧
         pool w' = pool w).
Proof.
  unfold nextChoice. split.
  - intros l x Hx Hc.
    unfold Pooled.newWriter, Pooled.writer_free, Pooled.writerPool_Put,
      Pooled.writerPool_Get, Pooled.writerPool_New, Pooled.store, Pooled.load.
    run. rewrite Hc, lookup_snoc. run. rewrite Hx. run.
    eexists. split; [done|]. cbn. split; [done|].
    rewrite delete_middle. by rewrite app_nil_r.
  - intros Hp.
    unfold Pooled.newWriter, Pooled.writerPool_Get, Pooled.writerPool_New,
      Pooled.store, Pooled.load.
    run. rewrite Hp. run. rewrite lookup_snoc. run.
    eexists. split; [done|]. cbn. by rewrite insert_snoc.
Qed.

(** X14.  Tracing a call to the no-op outbound of package interceptor:
    when the inject step succeeds the call returns a nil response and a nil
    error, as the no-op outbound does, without a panic, and its span is
    finished once with no error tag.  A function wrapped as
    [UnaryOutboundFunc] is traced exactly as the function itself. *)
Theorem Call_over_nop_outbound (m : Interceptor) (t : Tracer) (ctx : Context)
    (req : Request) (w : World) (hs : gmap string string) :
  tracer m = Some t ->
  (injectStep transport_GetPropagationCarrier m t ctx (Procedure req) w = (hs, None) ->
   (Plain.Call m ctx req interceptor.nopUnaryOutbound_Call w).1 = Ok (None, None) ∧
   finishedUntagged w (Plain.Call m ctx req interceptor.nopUnaryOutbound_Call w).2
     (standardTags (transport m) req ∅)) ∧
  (injectStep tchannel_GetPropagationCarrier m t ctx (Procedure req) w = (hs, None) ->
   (Pooled.Call m ctx req interceptor.nopUnaryOutbound_Call w).1 = Ok (None, None) ∧
   finishedUntagged w (Pooled.Call m ctx req interceptor.nopUnaryOutbound_Call w).2
     (standardTags (transport m) req CommonTracingTags)) ∧
  (∀ f, Plain.Call m ctx req (interceptor.UnaryOutboundFunc_Call f) w
        = Plain.Call m ctx req f w) ∧
  (∀ f, Pooled.Call m ctx req (interceptor.UnaryOutboundFunc_Call f) w
        = Pooled.Call m ctx req f w).
Proof.
  intros Ht. unfold injectStep, finishedUntagged. split_and!; try done.
  - intros Hi. unfold Plain.Call. rewrite Ht. run. rewrite lookup_snoc. run.
    rewrite Hi. run. unfold updateSpanWithOutboundError. run.
    rewrite !alter_snoc. split; [done|]. by eexists.
  - intros Hi. unfold Pooled.Call. rewrite Ht. run. rewrite lookup_snoc. run.
    rewrite Hi. run. unfold updateSpanWithOutboundError. run.
    rewrite !alter_snoc. split; [done|]. by eexists.
Qed.

(** X15.  An interceptor whose tracer is nil (the zero value, which [New]
    never returns) panics with a nil dereference in every implemented entry
    point before it has any effect: no span is started, nothing is invoked
    downstream, the pool is not touched. *)
Theorem nil_tracer_panics_before_any_effect (m : Interceptor) (w : World) :
  tracer m = None ->
  (∀ ctx req resw h, Plain.Handle m ctx req resw h w = (Panic NilDereference, w)) ∧
  (∀ ctx req out, Plain.Call m ctx req out w = (Panic NilDereference, w)) ∧
  (∀ ctx req h, Plain.HandleOneway m ctx req h w = (Panic NilDereference, w)) ∧
  (∀ ctx req out, Plain.CallOneway m ctx req out w = (Panic NilDereference, w)) ∧
  (∀ s h, Plain.HandleStream m s h w = (Panic NilDereference, w)) ∧
  (∀ ctx req out, Plain.CallStream m ctx req out w = (Panic NilDereference, w)) ∧
  (∀ ctx req resw h, Pooled.Handle m ctx req resw h w = (Panic NilDereference, w)) ∧
  (∀ ctx req out, Pooled.Call m ctx req out w = (Panic NilDereference, w)).
Proof.
  intros Ht. destruct (nil_tracer_runs m Ht) as (N1 & N2 & N3 & N4 & N5 & N6 & N7 & N8).
  split_and!; intros; auto.
Qed.

(** X16.  [Write] on the pooled writer answers exactly what the transport
    writer's [Write] answers, byte count and error alike, and leaves the
    transport writer as a direct [Write] would; it adds the length of its
    argument to the recorded size before it writes, so a failed write is
    counted too. *)
Theorem writer_Write_passes_through (l : Loc) (r : nat) (x : writer) (tw : TransportWriter)
    (p : list Byte.byte) (w : World) :
  wraps l r x tw w ->
  (Pooled.writer_Write l p w).1 = (rw_Write (transportWriter (Some r)) p w).1 ∧
  writers (Pooled.writer_Write l p w).2 = writers (rw_Write (transportWriter (Some r)) p w).2 ∧
  heap (Pooled.writer_Write l p w).2 !! l
    = Some {| ResponseWriter := Some r; isApplicationError := isApplicationError x;
              applicationErrorMeta := applicationErrorMeta x;
              responseSize := Pooled.wrap_int (responseSize x + Z.of_nat (length p)) |}.
Proof.
  intros Hw. rewrite (writer_Write_ok _ _ _ _ _ p Hw).
  destruct Hw as (Hx & Hr & Htw). rewrite (transport_Write_ok _ p _ _ Htw).
  split_and!; [done|done|]. cbn. rewrite <- Hr.
  apply list_lookup_insert_eq. by eapply lookup_lt_Some.
Qed.

(** *** What the caller gets back *)

(** C7.  In every call shape and direction the error handed back to the
    caller is the error the downstream produced, neither swallowed nor
    wrapped nor replaced.  An inbound entry point returns what its handler
    returned: the unary ones the error of the handler run against the
    writer they pass it, the oneway and stream ones the handler's answer as
    it is.  An outbound entry point whose inject step succeeded returns the
    answer of the outbound it was given, response (or ack, or stream) and
    error alike; when the inject step failed the outbound is not asked and
    the error is the tracer's.  A panic of the downstream is the panic of
    the call.  The classifiers return the error they were given, whatever
    they tag.  The pooled [Handle] takes its writer from the pool first;
    a pool that holds a pointer to no allocated writer makes that step
    panic before the handler is asked. *)
Theorem downstream_error_returned_unchanged (m : Interceptor) (t : Tracer) (w : World) :
  tracer m = Some t ->
  let ctx' := {| ctx_span := Some (length (spans w)) |} in
  (∀ ctx req resw h,
     let w1 := set_spans
                 (fun l => l ++ [serverSpan transport_GetPropagationCarrier m t req ∅ w]) w in
     (Plain.Handle m ctx req resw h w).1
       = snd <$> (runHandler (transportWriter resw) (h ctx' req) w1).1) ∧
  (∀ ctx req out,
     (Plain.Call m ctx req out w).1
       = match injectStep transport_GetPropagationCarrier m t ctx (Procedure req) w with
         | (hs, None) => out ctx' (withHeaders (mergeHeaders hs (Headers req)) req)
         | (_, Some e) => Ok (None, Some e)
         end) ∧
  (∀ ctx req h, (Plain.HandleOneway m ctx req h w).1 = h ctx' req) ∧
  (∀ ctx req out,
     (Plain.CallOneway m ctx req out w).1
       = match injectStep transport_GetPropagationCarrier m t ctx (Procedure req) w with
         | (hs, None) => out ctx' (withHeaders (mergeHeaders hs (Headers req)) req)
         | (_, Some e) => Ok (None, Some e)
         end) ∧
  (∀ s h, (Plain.HandleStream m s h w).1 = h s) ∧
  (∀ ctx req out,
     (Plain.CallStream m ctx req out w).1
       = match injectStep transport_GetPropagationCarrier m t ctx
                 (Meta_Procedure (Meta req)) w with
         | (hs, None) =>
           out ctx' (withMetaHeaders (mergeHeaders hs (Meta_Headers (Meta req))) req)
         | (_, Some e) => Ok (None, Some e)
         end) ∧
  (∀ ctx req resw h,
     let w1 := set_spans
                 (fun l => l ++ [serverSpan tchannel_GetPropagationCarrier m t req
                                   CommonTracingTags w]) w in
     (Pooled.Handle m ctx req resw h w).1
       = match Pooled.newWriter resw w1 with
         | (Ok l, w2) => snd <$> (runHandler (Pooled.writerMethods l) (h ctx' req) w2).1
         | (Panic v, _) => Panic v
         end) ∧
  (∀ ctx req out,
     (Pooled.Call m ctx req out w).1
       = match injectStep tchannel_GetPropagationCarrier m t ctx (Procedure req) w with
         | (hs, None) => out ctx' (withHeaders (mergeHeaders hs (Headers req)) req)
         | (_, Some e) => Ok (None, Some e)
         end) ∧
  (∀ span err w0, (updateSpanWithError span err w0).1 = Ok err) ∧
  (∀ span res err w0, (updateSpanWithOutboundError span res err w0).1 = Ok err).
Proof.
  intros Ht. cbv zeta. split_and!.
  9: { intros. by rewrite updateSpanWithError_run. }
  9: { intros. by rewrite updateSpanWithOutboundError_run. }
  - intros ctx req resw h. unfold Plain.Handle, serverSpan, extractStep. rewrite Ht. run.
    destruct (Tracer_Extract t _ _) as [parent xerr]. run.
    unfold UnaryHandler_Handle.
    match goal with |- context [runHandler ?rw ?p ?w1] =>
      destruct (runHandler rw p w1) as [hr w2] eqn:E end.
    repeat match goal with E : runHandler _ _ _ = ?rhs |- context [runHandler ?rw ?p ?w1] =>
      replace (runHandler rw p w1) with rhs by (symmetry; exact E) end.
    destruct hr as [[cs err]|v]; run; rewrite ?updateSpanWithError_run; run; done.
  - intros ctx req out. unfold Plain.Call, injectStep. rewrite Ht. run.
    rewrite lookup_snoc. run.
    destruct (Tracer_Inject t _ _ _) as [hs [e|]]; run; [done|].
    match goal with |- context [out ?c ?r] =>
      destruct (out c r) as [[res err]|v] eqn:E end;
      run; rewrite ?updateSpanWithOutboundError_run; run;
      match goal with E : out _ _ = ?rhs |- context [out ?c' ?r'] =>
        replace (out c' r') with rhs by (symmetry; exact E) end; done.
  - intros ctx req h. unfold Plain.HandleOneway. rewrite Ht. run.
    destruct (Tracer_Extract t _ _) as [parent xerr]. run.
    match goal with |- context [h ?c ?r] => destruct (h c r) as [err|v] eqn:E end;
      run; rewrite ?updateSpanWithError_run; run;
      match goal with E : h _ _ = ?rhs |- context [h ?c' ?r'] =>
        replace (h c' r') with rhs by (symmetry; exact E) end; done.
  - intros ctx req out. unfold Plain.CallOneway, injectStep. rewrite Ht. run.
    rewrite lookup_snoc. run.
    destruct (Tracer_Inject t _ _ _) as [hs [e|]]; run; [done|].
    match goal with |- context [out ?c ?r] =>
      destruct (out c r) as [[ack err]|v] eqn:E end;
      run; rewrite ?updateSpanWithError_run; run;
      match goal with E : out _ _ = ?rhs |- context [out ?c' ?r'] =>
        replace (out c' r') with rhs by (symmetry; exact E) end; done.
  - intros s h. unfold Plain.HandleStream. rewrite Ht. run.
    destruct (Tracer_Extract t _ _) as [parent xerr]. run.
    destruct (h s) as [err|v]; run; rewrite ?updateSpanWithError_run; run; done.
  - intros ctx req out. unfold Plain.CallStream, injectStep. rewrite Ht. run.
    rewrite lookup_snoc. run.
    destruct (Tracer_Inject t _ _ _) as [hs [e|]]; run; [done|].
    match goal with |- context [out ?c ?r] =>
      destruct (out c r) as [[stream err]|v] eqn:E end;
      run; rewrite ?updateSpanWithError_run; run;
      match goal with E : out _ _ = ?rhs |- context [out ?c' ?r'] =>
        replace (out c' r') with rhs by (symmetry; exact E) end; done.
  - intros ctx req resw h. unfold Pooled.Handle, serverSpan, extractStep. rewrite Ht. run.
    destruct (Tracer_Extract t _ _) as [parent xerr]. run.
    match goal with |- context [Pooled.newWriter resw ?w1] =>
      pose proof (newWriter_cases resw w1) as [_ Hn];
      destruct (Pooled.newWriter resw w1) as [[l|v] w2] end; cbn in Hn; [|by run].
    unfold UnaryHandler_Handle.
    match goal with |- context [runHandler ?rw ?p w2] =>
      destruct (runHandler_writer l p w2 false) as [_ Hf];
        [by exists (Pooled.freshWriter resw)|];
      destruct (runHandler rw p w2) as [hr w3] eqn:E end.
    repeat match goal with E : runHandler _ _ _ = ?rhs |- context [runHandler ?rw ?p ?w1] =>
      replace (runHandler rw p w1) with rhs by (symmetry; exact E) end.
    cbn in Hf. destruct hr as [[cs err]|v]; run; [|done].
    destruct Hf as (x & Hx & _).
    erewrite load_ok by (cbn; exact Hx).
    destruct (isApplicationError x); run; rewrite updateSpanWithError_run; run; done.
  - intros ctx req out. unfold Pooled.Call, injectStep. rewrite Ht. run.
    rewrite lookup_snoc. run.
    destruct (Tracer_Inject t _ _ _) as [hs [e|]]; run; [done|].
    match goal with |- context [out ?c ?r] =>
      destruct (out c r) as [[res err]|v] eqn:E end;
      run; rewrite ?updateSpanWithOutboundError_run; run;
      match goal with E : out _ _ = ?rhs |- context [out ?c' ?r'] =>
        replace (out c' r') with rhs by (symmetry; exact E) end; done.
Qed.

End Theory.

(** ** The claims at work *)

Section Witnesses.
Import Fixture.
#[local] Existing Instance Fixture.errors.
#[local] Existing Instance Fixture.api.
#[local] Existing Instance Fixture.factory.

(** An outbound call that fails with status [internal]. *)
Lemma status_outcome_tags_span_witness :
  statusTagged (Plain.Call m0 ctx0 req0 outInternal world0).2 0%nat internalError.
Proof.
  destruct (status_outcome_tags_span m0 world0
              (Plain.Call m0 ctx0 req0 outInternal world0).2
              (unaryOutcome (None, Some internalError)) internalError)
    as (_ & HCall & _).
  - vm_compute. reflexivity.
  - reflexivity.
  - reflexivity.
  - apply (HCall ctx0 req0 outInternal (Plain.Call m0 ctx0 req0 outInternal world0).1).
    apply surjective_pairing.
Defined.

(** C2 as stated fails: a raw error that comes with a response whose
    application-error flag is set is classified ["application_error"], not
    ["unknown_internal_yarpc"]. *)
Lemma raw_error_with_application_error_flag :
  let x := Plain.Call m0 ctx0 req0 outAppErrRaw world0 in
  answered world0 x.2 (unaryOutcome (Some appErrResponse, Some rawError)) ∧
  x.1 = Ok (Some appErrResponse, Some rawError) ∧
  IsStatus (Some rawError) = false ∧
  tag x.2 0%nat "error.type" = Some (VString "application_error") ∧
  tag x.2 0%nat "error.type" ≠ Some (VString "unknown_internal_yarpc").
Proof.
  split_and!; try (vm_compute; reflexivity). vm_compute. discriminate.
Defined.

(** A raw error without a response. *)
Lemma raw_outcome_tags_span_witness :
  tag (Plain.Call m0 ctx0 req0 outRaw world0).2 0%nat "error" = Some (VBool true) ∧
  tag (Plain.Call m0 ctx0 req0 outRaw world0).2 0%nat "error.type"
    = Some (VString "unknown_internal_yarpc").
Proof.
  destruct (raw_outcome_tags_span m0 world0
              (Plain.Call m0 ctx0 req0 outRaw world0).2
              (unaryOutcome (None, Some rawError)) rawError)
    as (HCall & _).
  - vm_compute. reflexivity.
  - reflexivity.
  - reflexivity.
  - apply (HCall ctx0 req0 outRaw (Plain.Call m0 ctx0 req0 outRaw world0).1).
    apply surjective_pairing.
Defined.

(** C3 as stated fails: after a failed injection the span has
    [error = true] and no [error.type] at all. *)
Lemma inject_failure_sets_no_error_type :
  let x := Plain.Call mFailing ctx0 req0 outInternal world0 in
  (injectStep transport_GetPropagationCarrier mFailing failingTracer ctx0
     (Procedure req0) world0).2 = Some injectError ∧
  x.1 = Ok (None, Some injectError) ∧
  tag x.2 0%nat "error" = Some (VBool true) ∧
  tag x.2 0%nat "error.type" = None ∧
  tag x.2 0%nat "error.type" ≠ Some (VString "unknown_internal_yarpc").
Proof.
  split_and!; try (vm_compute; reflexivity). vm_compute. discriminate.
Defined.

Lemma inject_failure_marks_span_witness :
  injectMarked world0 (Plain.Call mFailing ctx0 req0 outInternal world0).2 injectError
    (standardTags (transport mFailing) req0 ∅).
Proof.
  apply (proj1 (inject_failure_marks_span mFailing failingTracer ctx0 world0 injectError
                  eq_refl)).
  reflexivity.
Defined.

Lemma inject_failure_short_circuits_witness :
  shortCircuited world0 (Plain.CallStream mFailing ctx0 sreq0 (fun _ _ => Ok (Some 1%nat, None)) world0).2
    injectError (Plain.CallStream mFailing ctx0 sreq0 (fun _ _ => Ok (Some 1%nat, None)) world0).1.
Proof.
  destruct (inject_failure_short_circuits mFailing failingTracer ctx0 world0 injectError
              eq_refl) as (_ & _ & HStream & _).
  apply HStream. reflexivity.
Defined.

Lemma application_error_response_tags_span_witness :
  (Plain.Call m0 ctx0 req0 outAppErr world0).1 = Ok (Some appErrResponse, None) ∧
  tag (Plain.Call m0 ctx0 req0 outAppErr world0).2 0%nat "error" = Some (VBool true) ∧
  tag (Plain.Call m0 ctx0 req0 outAppErr world0).2 0%nat "error.type"
    = Some (VString "application_error").
Proof.
  destruct (application_error_response_tags_span m0 world0
              (Plain.Call m0 ctx0 req0 outAppErr world0).2
              (unaryOutcome (Some appErrResponse, None)) appErrResponse)
    as (HCall & _).
  - vm_compute. reflexivity.
  - reflexivity.
  - reflexivity.
  - reflexivity.
  - apply (HCall ctx0 req0 outAppErr). apply surjective_pairing.
Defined.

(** A handler that panics still leaves its span finished once. *)
Lemma inbound_span_finished_once_witness :
  finishedOnce world0 (Pooled.Handle m0 ctx0 req0 (Some 0%nat) handlerPanics world0).2 None.
Proof.
  destruct (inbound_span_finished_once m0 goodTracer world0 eq_refl) as (_ & _ & _ & HPooled).
  apply (HPooled ctx0 req0 (Some 0%nat) handlerPanics).
Defined.

(** What each of four entry points hands back: a handler's status error,
    an outbound's raw error, a stream handler's raw error, and the status
    error of a handler that ran against a pooled writer. *)
Lemma downstream_error_returned_unchanged_witness :
  (Plain.Handle m0 ctx0 req0 (Some 0%nat) handlerInternal world0).1
    = Ok (Some internalError) ∧
  (Plain.Call m0 ctx0 req0 outRaw world0).1 = Ok (None, Some rawError) ∧
  (Plain.HandleStream m0 {| Stream_Context := ctx0; Stream_Request := sreq0 |}
     (fun _ => Ok (Some rawError)) world0).1 = Ok (Some rawError) ∧
  (Pooled.Handle m0 ctx0 req0 (Some 0%nat) handlerInternal world0).1
    = Ok (Some internalError).
Proof.
  destruct (downstream_error_returned_unchanged m0 goodTracer world0 eq_refl)
    as (HHandle & HCall & _ & _ & HStream & _ & HPooled & _).
  split_and!.
  - apply (HHandle ctx0 req0 (Some 0%nat) handlerInternal).
  - apply (HCall ctx0 req0 outRaw).
  - apply (HStream {| Stream_Context := ctx0; Stream_Request := sreq0 |}
             (fun _ => Ok (Some rawError))).
  - apply (HPooled ctx0 req0 (Some 0%nat) handlerInternal).
Defined.

Lemma New_resolves_global_tracer_once_witness :
  ∃ m, New params0 world0 = (Ok m, world0) ∧ tracer m = Some goodTracer.
Proof.
  destruct (New_resolves_global_tracer_once params0 world0 eq_refl) as (m & HNew & Ht & _).
  exists m. split; [exact HNew|exact Ht].
Defined.

Lemma newWriter_yields_reset_writer_witness :
  ∃ l w', Pooled.newWriter (Some 0%nat) (Pooled.poolRun poolOps world0) = (Ok l, w') ∧
          heap w' !! l = Some {| ResponseWriter := Some 0%nat; isApplicationError := false;
                                 applicationErrorMeta := None; responseSize := 0 |}.
Proof.
  apply (newWriter_yields_reset_writer poolOps world0 (Some 0%nat)).
  - constructor.
  - cbn. repeat split. vm_compute. lia.
Defined.

Lemma inbound_application_error_sets_type_only_witness :
  (Pooled.Handle m0 ctx0 req0 (Some 0%nat) handlerAppErr world0).1 = Ok None ∧
  ∃ s, spans (Pooled.Handle m0 ctx0 req0 (Some 0%nat) handlerAppErr world0).2
         = spans world0 ++ [s] ∧
       sp_tags s = <["error.type" := VString "application_error"]>
                     (standardTags (Transport req0) req0 CommonTracingTags) ∧
       sp_tags s !! "error" = standardTags (Transport req0) req0 CommonTracingTags !! "error" ∧
       sp_finished s = 1%nat.
Proof.
  apply (inbound_application_error_sets_type_only m0 ctx0 req0 (Some 0%nat) handlerAppErr
           world0 _ _
           (handlerOutcome ([CallSetApplicationError; CallWrite [Byte.x6f; Byte.x6b]], None))).
  - apply surjective_pairing.
  - vm_compute. reflexivity.
  - reflexivity.
  - reflexivity.
Defined.

End Witnesses.

(** ** The further properties at work *)

Section Coverage.
Import Fixture Scenarios.
#[local] Existing Instance Fixture.errors.
#[local] Existing Instance Fixture.api.
#[local] Existing Instance Fixture.factory.

Lemma success_leaves_span_untagged_witness :
  (Plain.HandleOneway m0 ctx0 req0 onewayOk world0).1 = Ok None ∧
  finishedUntagged world0 (Plain.HandleOneway m0 ctx0 req0 onewayOk world0).2
    (standardTags (Transport req0) req0 ∅).
Proof.
  destruct (success_leaves_span_untagged m0 world0
              (Plain.HandleOneway m0 ctx0 req0 onewayOk world0).2 (errOutcome None))
    as (_ & _ & HOneway & _).
  - vm_compute. reflexivity.
  - reflexivity.
  - apply (HOneway ctx0 req0 onewayOk). apply surjective_pairing.
Defined.

Lemma raw_error_tags_span_unknown_witness :
  tag (Plain.HandleOneway m0 ctx0 req0 onewayRaw world0).2 0%nat "error"
    = Some (VBool true) ∧
  tag (Plain.HandleOneway m0 ctx0 req0 onewayRaw world0).2 0%nat "error.type"
    = Some (VString "unknown_internal_yarpc").
Proof.
  destruct (raw_error_tags_span_unknown m0 world0
              (Plain.HandleOneway m0 ctx0 req0 onewayRaw world0).2
              (errOutcome (Some rawError)) rawError)
    as (_ & HOneway & _).
  - vm_compute. reflexivity.
  - reflexivity.
  - reflexivity.
  - apply (HOneway ctx0 req0 onewayRaw (Plain.HandleOneway m0 ctx0 req0 onewayRaw world0).1).
    apply surjective_pairing.
Defined.

Lemma downstream_panic_propagates_witness :
  (Plain.Call m0 ctx0 req0 outPanics world0).1 = Panic (PanicString "connection lost") ∧
  finishedUntagged world0 (Plain.Call m0 ctx0 req0 outPanics world0).2
    (standardTags (transport m0) req0 ∅).
Proof.
  destruct (downstream_panic_propagates m0 world0
              (Plain.Call m0 ctx0 req0 outPanics world0).2
              (PanicString "connection lost"))
    as (_ & HCall & _).
  - vm_compute. reflexivity.
  - apply (HCall ctx0 req0 outPanics). apply surjective_pairing.
Defined.

Lemma outbound_span_finished_once_witness :
  finishedOnce world0 (Plain.Call m0 ctx0 req0 outPanics world0).2
    (clientParent ctx0 (spans world0)).
Proof.
  apply (proj1 (outbound_span_finished_once m0 goodTracer world0 eq_refl)).
Defined.

Lemma classifiers_agree_without_application_error_witness :
  updateSpanWithOutboundError 0%nat None (Some rawError) world0
  = updateSpanWithError 0%nat (Some rawError) world0.
Proof.
  apply (classifiers_agree_without_application_error 0%nat None (Some rawError) world0).
  reflexivity.
Defined.

Lemma outbound_passes_injected_headers_witness :
  (Plain.Call m0 ctx0 req0 outOk world0).1
  = outOk {| ctx_span := Some 0%nat |}
      (withHeaders (mergeHeaders {[ "uber-trace-id" := "7" ]} (Headers req0)) req0).
Proof.
  destruct (outbound_passes_injected_headers m0 goodTracer ctx0 world0
              {[ "uber-trace-id" := "7" ]} eq_refl) as (HCall & _).
  apply (HCall req0 outOk). reflexivity.
Defined.

Lemma inbound_handler_runs_unchanged_witness :
  (Plain.HandleOneway m0 ctx0 req0 onewayRaw world0).1
  = onewayRaw {| ctx_span := Some 0%nat |} req0.
Proof.
  destruct (inbound_handler_runs_unchanged m0 goodTracer world0 eq_refl) as (_ & HOneway & _).
  apply (HOneway ctx0 req0 onewayRaw).
Defined.

Lemma observer_forwards_calls_witness :
  ∃ tw', writers (runHandler (Pooled.writerMethods 0%nat) busyHandler worldWrapped).2 !! 0%nat
           = Some tw' ∧
         tw_calls tw' = tw_calls quietWriter ++ forwarded (tw_isMetaSetter quietWriter) busyCalls.
Proof.
  apply (observer_forwards_calls 0%nat 0%nat (Pooled.freshWriter (Some 0%nat)) quietWriter
           busyHandler worldWrapped _ busyCalls None).
  - split_and!; reflexivity.
  - vm_compute. reflexivity.
Defined.

Lemma observer_records_calls_witness :
  ∃ x', heap (runHandler (Pooled.writerMethods 0%nat) busyHandler worldWrapped).2 !! 0%nat
          = Some x' ∧
        ResponseWriter x' = Some 0%nat ∧
        isApplicationError x'
          = isApplicationError (Pooled.freshWriter (Some 0%nat))
            || calledSetApplicationError busyCalls ∧
        applicationErrorMeta x'
          = lastMeta busyCalls (applicationErrorMeta (Pooled.freshWriter (Some 0%nat))) ∧
        responseSize x'
          = responseSize (Pooled.freshWriter (Some 0%nat)) + totalBytes busyCalls.
Proof.
  apply (observer_records_calls 0%nat 0%nat (Pooled.freshWriter (Some 0%nat)) quietWriter
           busyHandler worldWrapped _ busyCalls None).
  - split_and!; reflexivity.
  - vm_compute. reflexivity.
  - vm_compute. discriminate.
  - vm_compute. reflexivity.
Defined.

Lemma Handle_returns_writer_to_pool_witness :
  Pooled.poolValid (Pooled.Handle m0 ctx0 req0 (Some 0%nat) handlerAppErr world0).2.
Proof.
  apply (Handle_returns_writer_to_pool m0 goodTracer ctx0 req0 (Some 0%nat) handlerAppErr
           world0 eq_refl).
  constructor.
Defined.

Lemma Handle_forwards_to_transport_writer_witness :
  ∃ tw', writers (Pooled.Handle m0 ctx0 req0 (Some 0%nat) handlerAppErr world0).2 !! 0%nat
           = Some tw' ∧
         tw_calls tw'
           = tw_calls quietWriter ++
             forwarded (tw_isMetaSetter quietWriter)
               [CallSetApplicationError; CallWrite [Byte.x6f; Byte.x6b]].
Proof.
  apply (Handle_forwards_to_transport_writer m0 ctx0 req0 0%nat quietWriter handlerAppErr
           world0 (Pooled.Handle m0 ctx0 req0 (Some 0%nat) handlerAppErr world0).2
           (Pooled.Handle m0 ctx0 req0 (Some 0%nat) handlerAppErr world0).1
           (handlerOutcome ([CallSetApplicationError; CallWrite [Byte.x6f; Byte.x6b]], None))).
  - reflexivity.
  - apply surjective_pairing.
  - vm_compute. reflexivity.
Defined.

Lemma pool_reuses_released_writer_witness :
  ∃ w', Pooled.newWriter None (Pooled.writer_free 0%nat worldWrapped).2 = (Ok 0%nat, w') ∧
        heap w' = <[0%nat := Pooled.freshWriter None]> (heap worldWrapped) ∧
        pool w' = pool worldWrapped.
Proof.
  apply (proj1 (pool_reuses_released_writer None worldWrapped) 0%nat
           (Pooled.freshWriter (Some 0%nat))).
  - reflexivity.
  - reflexivity.
Defined.

Lemma Call_over_nop_outbound_witness :
  (Plain.Call m0 ctx0 req0 interceptor.nopUnaryOutbound_Call world0).1 = Ok (None, None) ∧
  finishedUntagged world0 (Plain.Call m0 ctx0 req0 interceptor.nopUnaryOutbound_Call world0).2
    (standardTags (transport m0) req0 ∅).
Proof.
  apply (proj1 (Call_over_nop_outbound m0 goodTracer ctx0 req0 world0
                  {[ "uber-trace-id" := "7" ]} eq_refl)).
  reflexivity.
Defined.

Lemma nil_tracer_panics_before_any_effect_witness :
  Plain.Call zeroInterceptor ctx0 req0 outOk world0 = (Panic NilDereference, world0).
Proof.
  destruct (nil_tracer_panics_before_any_effect zeroInterceptor world0 eq_refl)
    as (_ & HCall & _).
  apply HCall.
Defined.

Lemma writer_Write_passes_through_witness :
  (Pooled.writer_Write 0%nat [Byte.x68; Byte.x69] worldWrapped).1
  = (rw_Write (transportWriter (Some 0%nat)) [Byte.x68; Byte.x69] worldWrapped).1.
Proof.
  apply (writer_Write_passes_through 0%nat 0%nat (Pooled.freshWriter (Some 0%nat)) quietWriter
           [Byte.x68; Byte.x69] worldWrapped).
  split_and!; reflexivity.
Defined.

End Coverage.
